(** * retrieve.py: inverted index and the AND / OR / QL / BM25 retrieval models

    Shallow embedding of [src/retrieve.py].

    Modelling conventions.
    - Python [str] is [string]; a character is a code point below 256.
    - Python [int] is [Z]; [len] returns [Z.of_nat (length _)].
    - Python [float] is [R]: arithmetic is exact.  The two operations that
      raise are explicit: true division raises [ZeroDivisionError] on a zero
      divisor and [math.log] raises [ValueError] on a non-positive argument.
      For what depends on rounding, the two ranked models are given a second
      time over any arithmetic, with the exact reals and binary64 as
      instances.
    - A [dict] is a [gmap], a [set] is a [gset].  Python iterates a set in an
      unspecified order; the model iterates [elements], and the statements
      below do not depend on which order that is.
    - The index object is mutable: [getTotalTokenCount] fills a cache.  Code
      that reaches it runs in a state-and-exception monad over the index.
    - Writes to standard output ([print]) are not represented. *)

From Stdlib Require Import Reals Lra Lia ZArith String Ascii List Permutation Sorted.
From Stdlib Require Import Floats.
From stdpp Require Import base gmap sets list strings.

Open Scope string_scope.
Open Scope Z_scope.

(** ** Exceptions and results *)

Inductive exn : Type :=
| ZeroDivisionError
| ValueError
| IndexError.

Inductive result (A : Type) : Type :=
| Ok (a : A)
| Raise (e : exn).
Arguments Ok {A} a.
Arguments Raise {A} e.

Definition rbind {A B : Type} (r : result A) (k : A → result B) : result B :=
  match r with
  | Ok a => k a
  | Raise e => Raise e
  end.

(** [a / b] on numbers. *)
Definition pydiv (a b : R) : result R :=
  if Req_dec_T b 0 then Raise ZeroDivisionError else Ok (a / b)%R.

(** [math.log(x)]. *)
Definition pylog (x : R) : result R :=
  if Rlt_dec 0 x then Ok (ln x) else Raise ValueError.

(** [x != 0] on numbers. *)
Definition nonzero (x : R) : bool :=
  if Req_dec_T x 0 then false else true.

(** ** Strings *)

(** [str.isspace] on code points below 256. *)
Definition is_space (c : ascii) : bool :=
  let n := N_of_ascii c in
  (((9 <=? n) && (n <=? 13)) || ((28 <=? n) && (n <=? 32))
   || (n =? 133) || (n =? 160))%N.

(** [s.split()]: maximal runs of non-whitespace characters, in order. *)
Fixpoint split_from (cur : string) (s : string) : list string :=
  match s with
  | EmptyString => if decide (cur = EmptyString) then [] else [cur]
  | String c s' =>
      if is_space c
      then (if decide (cur = EmptyString) then split_from EmptyString s'
            else cur :: split_from EmptyString s')
      else split_from (cur ++ String c EmptyString)%string s'
  end.

Definition split (s : string) : list string := split_from EmptyString s.

(** [s.split(sep)] for a one-character separator: empty fields are kept. *)
Fixpoint split_on_from (sep : ascii) (cur : string) (s : string) : list string :=
  match s with
  | EmptyString => [cur]
  | String c s' =>
      if decide (c = sep) then cur :: split_on_from sep EmptyString s'
      else split_on_from sep (cur ++ String c EmptyString)%string s'
  end.

Definition split_on (sep : ascii) (s : string) : list string :=
  split_on_from sep EmptyString s.

Definition tab : ascii := ascii_of_nat 9.
Definition newline : ascii := ascii_of_nat 10.

(** [word.replace('\n', '')]. *)
Fixpoint remove_newlines (s : string) : string :=
  match s with
  | EmptyString => EmptyString
  | String c s' =>
      if decide (c = newline) then remove_newlines s'
      else String c (remove_newlines s')
  end.

(** [str.upper] on the letters a-z.  No other code point below 256 is mapped
    to a character of the tags [AND], [OR], [QL], [BM25], so the comparisons
    of [runQueries] are not affected by leaving the others in place. *)
Definition upper_ascii (c : ascii) : ascii :=
  let n := nat_of_ascii c in
  if ((97 <=? n) && (n <=? 122))%nat then ascii_of_nat (n - 32) else c.

Fixpoint upper (s : string) : string :=
  match s with
  | EmptyString => EmptyString
  | String c s' => String (upper_ascii c) (upper s')
  end.

(** ** Documents *)

(** A corpus entry; only the two keys that the program reads are kept. *)
Record Document : Type := mkDocument {
  storyID : string;
  text : string
}.

(** [sum([f(x) for x in m.values()])] on integers. *)
Definition map_sum {A : Type} (f : A → Z) (m : gmap string A) : Z :=
  map_fold (λ _ x acc, acc + f x) 0 m.

(** ** class Index *)

Module Index.

Record t : Type := mk {
  index : gmap string (gmap string (list Z));
  documents : gmap string Document;
  totalUniqueTokens : option Z;
  totalTokenCount : option Z;
  docCount : Z
}.

(** [__init__] *)
Definition init : t := mk ∅ ∅ None None 0.

(** Body of the loop of [add]: the loop state is the postings and [i]. *)
Definition add_token (sid : string)
    (st : gmap string (gmap string (list Z)) * Z) (token : string)
    : gmap string (gmap string (list Z)) * Z :=
  let '(ix, i) := st in
  let ix1 :=
    match ix !! token with
    | None => <[token := ∅]> ix
    | Some _ => ix
    end in
  let posting : gmap string (list Z) := default ∅ (ix1 !! token) in
  let posting1 : gmap string (list Z) :=
    match posting !! sid with
    | None => <[sid := []]> posting
    | Some _ => posting
    end in
  let posting2 :=
    <[sid := (default [] (posting1 !! sid) ++ [i])%list]> posting1 in
  (<[token := posting2]> ix1, i + 1).

Definition add (document : Document) (self : t) : t :=
  let docCount' := docCount self + 1 in
  let documents' := <[storyID document := document]> (documents self) in
  let index' :=
    fst (fold_left (add_token (storyID document)) (split (text document))
           (index self, 0)) in
  mk index' documents' (totalUniqueTokens self) (totalTokenCount self)
     docCount'.

Definition getPostings (self : t) (token : string) : gmap string (list Z) :=
  match index self !! token with
  | Some posting => posting
  | None => ∅
  end.

Definition getDocumentIDsForToken (self : t) (token : string) : gset string :=
  match index self !! token with
  | Some posting => dom posting
  | None => ∅
  end.

Definition getTokenDocumentCount (self : t) (token : string) : Z :=
  match index self !! token with
  | Some posting => Z.of_nat (size posting)
  | None => 0
  end.

Definition getDocumentLength (self : t) (document : string) : Z :=
  match documents self !! document with
  | Some d => Z.of_nat (length (split (text d)))
  | None => 0
  end.

Definition getTokenFrequencyInDocument (self : t) (token document : string)
    : Z :=
  match index self !! token with
  | Some posting =>
      match posting !! document with
      | Some positions => Z.of_nat (length positions)
      | None => 0
      end
  | None => 0
  end.

(** Sum of the lengths of the position lists of one posting. *)
Definition posting_total (posting : gmap string (list Z)) : Z :=
  map_sum (λ positions, Z.of_nat (length positions)) posting.

Definition getTotalTokenFrequency (self : t) (token : string) : Z :=
  match index self !! token with
  | Some posting => posting_total posting
  | None => 0
  end.

Definition getUniqueTotalTokenCount (self : t) : Z * t :=
  match totalUniqueTokens self with
  | Some n => (n, self)
  | None =>
      let n := Z.of_nat (size (index self)) in
      (n, mk (index self) (documents self) (Some n) (totalTokenCount self)
             (docCount self))
  end.

(** The loop of [getTotalTokenCount], run when the cache is empty. *)
Definition sum_token_frequencies (self : t) : Z :=
  map_fold (λ token _ sum, sum + getTotalTokenFrequency self token) 0
    (index self).

Definition getTotalTokenCount (self : t) : Z * t :=
  match totalTokenCount self with
  | Some n => (n, self)
  | None =>
      let sum := sum_token_frequencies self in
      (sum, mk (index self) (documents self) (totalUniqueTokens self)
               (Some sum) (docCount self))
  end.

Definition getNumberOfDocuments (self : t) : Z := docCount self.

Definition getAverageDocumentLength (self : t) : result R * t :=
  let '(total, self') := getTotalTokenCount self in
  (pydiv (IZR total) (IZR (getNumberOfDocuments self')), self').

Definition getIndex (self : t) : gmap string (gmap string (list Z)) :=
  index self.

End Index.

(** [buildIndex], on the list [inputFile['corpus']]. *)
Definition buildIndex (corpus : list Document) : Index.t :=
  fold_left (λ index document, Index.add document index) corpus Index.init.

(** ** The monad of code that reads and updates the index *)

Definition M (A : Type) : Type := Index.t → result A * Index.t.

Definition ret {A : Type} (a : A) : M A := λ s, (Ok a, s).

Definition bind {A B : Type} (m : M A) (k : A → M B) : M B :=
  λ s, match m s with
       | (Ok a, s') => k a s'
       | (Raise e, s') => (Raise e, s')
       end.

Definition gets {A : Type} (f : Index.t → A) : M A := λ s, (Ok (f s), s).

Definition lift {A : Type} (r : result A) : M A := λ s, (r, s).

Notation "'let*' x ':=' m 'in' k" := (bind m (λ x, k))
  (at level 10, x name, m at level 100, k at level 200).

(** A [for] loop with an accumulator. *)
Fixpoint foldM {A B : Type} (f : B → A → M B) (acc : B) (l : list A) : M B :=
  match l with
  | [] => ret acc
  | x :: l' => let* acc' := f acc x in foldM f acc' l'
  end.

Definition getTotalTokenCountM : M Z :=
  λ s, let '(n, s') := Index.getTotalTokenCount s in (Ok n, s').

Definition getAverageDocumentLengthM : M R := Index.getAverageDocumentLength.

(** ** class QueryResult, class QueryResults *)

Record QueryResult : Type := mkQueryResult {
  document : string;
  score : R
}.

(** [list.sort(key=...)] is a stable sort; it is modelled by stable insertion:
    [x] goes in front of the first element that it does not follow. *)
Fixpoint insert_by {A : Type} (le : A → A → bool) (x : A) (l : list A)
    : list A :=
  match l with
  | [] => [x]
  | y :: l' => if le x y then x :: l else y :: insert_by le x l'
  end.

Definition sort_by {A : Type} (le : A → A → bool) (l : list A) : list A :=
  foldr (insert_by le) [] l.

(** [key=lambda x: x.document]: strings compare by code point. *)
Definition by_document (x y : QueryResult) : bool :=
  String.leb (document x) (document y).

(** [key=lambda x: x.score, reverse=True] *)
Definition by_score_desc (x y : QueryResult) : bool :=
  if Rle_dec (score y) (score x) then true else false.

(** One formatted line of [getFinalResults], as the values it interpolates:
    the rounding of the score to four places and the column widths are not
    represented. *)
Record Row : Type := mkRow {
  row_queryName : string;
  row_document : string;
  row_rank : Z;
  row_score : R;
  row_tag : string
}.

Module QueryResults.

Record t : Type := mk {
  results : list QueryResult;
  method : string
}.

(** [__init__] *)
Definition init (method : string) : t := mk [] method.

Definition add (self : t) (document : string) (score : R) : t :=
  mk (results self ++ [mkQueryResult document score])%list (method self).

(** The loop that formats the sorted results, counting [rank] up. *)
Fixpoint format_rows (queryName tag : string) (rank : Z)
    (rs : list QueryResult) : list Row :=
  match rs with
  | [] => []
  | r :: rs' =>
      mkRow queryName (document r) rank (score r) tag
      :: format_rows queryName tag (rank + 1) rs'
  end.

(** Returns the rows and the object, whose [results] are now sorted. *)
Definition getFinalResults (self : t) (queryName runTag : string)
    : list Row * t :=
  let sorted :=
    if decide (method self = "AND" ∨ method self = "OR")
    then sort_by by_document (results self)
    else sort_by by_score_desc (results self) in
  (format_rows queryName (runTag ++ method self)%string 1 sorted,
   mk sorted (method self)).

End QueryResults.

(** Default arguments of [getFinalResults]. *)
Definition default_queryName : string := "testQuery".
Definition default_runTag : string := "cgibbons".

(** ** class Query *)

Record Query : Type := mkQuery {
  type : string;
  queryName : string;
  queryWords : list string
}.

(** [Query.__init__], on the fields of one line. *)
Definition Query_init (query : list string) : result Query :=
  match query with
  | ty :: name :: words => Ok (mkQuery ty name (map remove_newlines words))
  | _ => Raise IndexError
  end.

(** ** The retrieval models *)

(** The first loop of [runORQuery], [runQLQuery] and [runBM25Query]. *)
Definition union_documents (index : Index.t) (queryWords : list string)
    : gset string :=
  fold_left (λ documents word,
               documents ∪ Index.getDocumentIDsForToken index word)
    queryWords ∅.

(** The first loop of [runANDQuery]; the state is [documents] and
    [firstIteration]. *)
Definition intersect_documents (index : Index.t) (queryWords : list string)
    : gset string :=
  fst (fold_left (λ (st : gset string * bool) word,
                    let relevantDocs := Index.getDocumentIDsForToken index word in
                    if snd st then (relevantDocs, false)
                    else (fst st ∩ relevantDocs, false))
         queryWords (∅, true)).

Definition runANDQuery (index : Index.t) (queryWords : list string)
    : QueryResults.t :=
  let documents := intersect_documents index queryWords in
  fold_left (λ results document, QueryResults.add results document 1%R)
    (elements documents) (QueryResults.init "AND").

Definition runORQuery (index : Index.t) (queryWords : list string)
    : QueryResults.t :=
  let documents := union_documents index queryWords in
  fold_left (λ results document, QueryResults.add results document 1%R)
    (elements documents) (QueryResults.init "OR").

(** Body of the inner loop of [runQLQuery]. *)
Definition ql_step (u : R) (document : string) (score : R) (word : string)
    : M R :=
  let* tf := gets (λ s, Index.getTokenFrequencyInDocument s word document) in
  let* ctf := gets (λ s, Index.getTotalTokenFrequency s word) in
  let* total := getTotalTokenCountM in
  let* ratio := lift (pydiv (IZR ctf) (IZR total)) in
  let numerator := (IZR tf + u * ratio)%R in
  let* dl := gets (λ s, Index.getDocumentLength s document) in
  let denominator := (IZR dl + u)%R in
  let* quotient := lift (pydiv numerator denominator) in
  let* l := lift (pylog quotient) in
  ret (score + l)%R.

Definition runQLQuery_with (u : R) (queryWords : list string)
    : M QueryResults.t :=
  let* documents := gets (λ s, union_documents s queryWords) in
  foldM (λ results document,
           let* score := foldM (ql_step u document) 0%R queryWords in
           ret (QueryResults.add results document score))
    (QueryResults.init "QL") (elements documents).

(** [runQLQuery(index, queryWords)] with the default [u = 300]. *)
Definition runQLQuery (queryWords : list string) : M QueryResults.t :=
  runQLQuery_with 300 queryWords.

(** The [print] guarded by [word == 'united' and document == '24323-art19']
    evaluates two index methods before it writes; the evaluation is kept.
    The second [print], inside the guard on the three factors, only formats
    values that are already computed. *)
Definition debug_print (document word : string) : M unit :=
  if decide (word = "united" ∧ document = "24323-art19")
  then let* _ := gets (λ s, Index.getDocumentLength s document) in
       let* _ := getAverageDocumentLengthM in
       ret tt
  else ret tt.

(** Body of the inner loop of [runBM25Query]. *)
Definition bm25_step (k1 k2 : R) (bigK : R) (document : string) (score : R)
    (word : string) : M R :=
  let q_fi := 1%R in
  let* f_i := gets (λ s, Index.getTokenFrequencyInDocument s word document) in
  let* n_i := gets (λ s, Index.getTokenDocumentCount s word) in
  let* bigN := gets Index.getNumberOfDocuments in
  let* _ := debug_print document word in
  let* odds := lift (pydiv (IZR (bigN - n_i) + 0.5) (IZR n_i + 0.5))%R in
  let* term1 := lift (pylog odds) in
  let* term2 := lift (pydiv ((k1 + 1) * IZR f_i) (bigK + IZR f_i))%R in
  let* term3 := lift (pydiv ((k2 + 1) * q_fi) (k2 + q_fi))%R in
  if nonzero term1 && nonzero term2 && nonzero term3
  then ret (score + term1 * term2 * term3)%R
  else ret score.

(** [bigK] of one document. *)
Definition bm25_bigK (k1 b : R) (document : string) : M R :=
  let* dl := gets (λ s, Index.getDocumentLength s document) in
  let* avg := getAverageDocumentLengthM in
  let* ratio := lift (pydiv (IZR dl) avg) in
  ret (k1 * ((1 - b) + b * ratio))%R.

Definition runBM25Query_with (k1 k2 b : R) (queryWords : list string)
    : M QueryResults.t :=
  let* documents := gets (λ s, union_documents s queryWords) in
  foldM (λ results document,
           let* bigK := bm25_bigK k1 b document in
           let* score := foldM (bm25_step k1 k2 bigK document) 0%R queryWords in
           ret (QueryResults.add results document score))
    (QueryResults.init "BM25") (elements documents).

(** [runBM25Query(index, queryWords)] with the defaults
    [k1 = 1.8], [k2 = 5], [b = 0.75]. *)
Definition runBM25Query (queryWords : list string) : M QueryResults.t :=
  runBM25Query_with 1.8 5 0.75 queryWords.

(** ** runQueries *)

(** The dispatch on [query.type.upper()]: an unrecognised tag appends
    nothing. *)
Definition dispatch (results : list QueryResults.t) (query : Query)
    : M (list QueryResults.t) :=
  if decide (upper (type query) = "AND")
  then let* r := gets (λ s, runANDQuery s (queryWords query)) in
       ret (results ++ [r])%list
  else if decide (upper (type query) = "OR")
  then let* r := gets (λ s, runORQuery s (queryWords query)) in
       ret (results ++ [r])%list
  else if decide (upper (type query) = "QL")
  then let* r := runQLQuery (queryWords query) in
       ret (results ++ [r])%list
  else if decide (upper (type query) = "BM25")
  then let* r := runBM25Query (queryWords query) in
       ret (results ++ [r])%list
  else ret results.

(** The tags that [dispatch] knows. *)
Definition recognised (tag : string) : Prop :=
  upper tag = "AND" ∨ upper tag = "OR" ∨ upper tag = "QL" ∨ upper tag = "BM25".

(** What a run leaves behind: the lines written to the output file and the
    exception that ended the run, if any. *)
Record Outcome : Type := mkOutcome {
  written : list Row;
  raised : option exn
}.

(** The loop [for i in range(len(queries))] over the output file:
    [pending] are the queries from position [i] on. *)
Fixpoint write_results (results : list QueryResults.t) (i : nat)
    (pending : list Query) (out : list Row) : Outcome :=
  match pending with
  | [] => mkOutcome out None
  | query :: pending' =>
      match results !! i with
      | None => mkOutcome out (Some IndexError)
      | Some r =>
          let rows :=
            fst (QueryResults.getFinalResults r (queryName query)
                   default_runTag) in
          write_results results (S i) pending' (out ++ rows)%list
      end
  end.

(** Reading the query file: one [Query] per line, split on tabs. *)
Fixpoint parse_queries (lines : list string) : result (list Query) :=
  match lines with
  | [] => Ok []
  | line :: lines' =>
      rbind (Query_init (split_on tab line)) (λ query,
      rbind (parse_queries lines') (λ queries,
      Ok (query :: queries)))
  end.

(** [runQueries(index, queriesFile, outputFile)], on the lines of the query
    file.  An exception before the output file is opened leaves no line. *)
Definition runQueries (lines : list string) (index : Index.t)
    : Outcome * Index.t :=
  match parse_queries lines with
  | Raise e => (mkOutcome [] (Some e), index)
  | Ok queries =>
      match foldM dispatch [] queries index with
      | (Raise e, index') => (mkOutcome [] (Some e), index')
      | (Ok results, index') => (write_results results 0 queries [], index')
      end
  end.

(** ** Pure readings of the monadic code

    The only update of the index is the cache of [getTotalTokenCount]; the
    definitions below are what the loops compute from an index whose data is
    fixed.  They are related to the monadic code by the [*_run] lemmas. *)

(** Two index states with the same tables, the same document count and the
    same answer of [getTotalTokenCount]. *)
Definition same_data (s index : Index.t) : Prop :=
  Index.index s = Index.index index
  ∧ Index.documents s = Index.documents index
  ∧ Index.docCount s = Index.docCount index
  ∧ fst (Index.getTotalTokenCount s) = fst (Index.getTotalTokenCount index).

(** A loop with an accumulator whose body may raise. *)
Fixpoint foldR {A B : Type} (f : B → A → result B) (acc : B) (l : list A)
    : result B :=
  match l with
  | [] => Ok acc
  | x :: l' => rbind (f acc x) (λ acc', foldR f acc' l')
  end.

Definition ql_term (u : R) (index : Index.t) (document : string) (score : R)
    (word : string) : result R :=
  let tf := Index.getTokenFrequencyInDocument index word document in
  let ctf := Index.getTotalTokenFrequency index word in
  let total := fst (Index.getTotalTokenCount index) in
  let dl := Index.getDocumentLength index document in
  rbind (pydiv (IZR ctf) (IZR total)) (λ ratio,
  rbind (pydiv (IZR tf + u * ratio) (IZR dl + u))%R (λ quotient,
  rbind (pylog quotient) (λ l,
  Ok (score + l)%R))).

Definition ql_document (u : R) (index : Index.t) (queryWords : list string)
    (results : QueryResults.t) (document : string) : result QueryResults.t :=
  rbind (foldR (ql_term u index document) 0%R queryWords) (λ score,
  Ok (QueryResults.add results document score)).

Definition debug_print_pure (index : Index.t) (document word : string)
    : result unit :=
  if decide (word = "united" ∧ document = "24323-art19")
  then rbind (fst (Index.getAverageDocumentLength index)) (λ _, Ok tt)
  else Ok tt.

Definition bm25_term (k1 k2 : R) (index : Index.t) (bigK : R)
    (document : string) (score : R) (word : string) : result R :=
  let f_i := Index.getTokenFrequencyInDocument index word document in
  let n_i := Index.getTokenDocumentCount index word in
  let bigN := Index.getNumberOfDocuments index in
  rbind (debug_print_pure index document word) (λ _,
  rbind (pydiv (IZR (bigN - n_i) + 0.5) (IZR n_i + 0.5))%R (λ odds,
  rbind (pylog odds) (λ term1,
  rbind (pydiv ((k1 + 1) * IZR f_i) (bigK + IZR f_i))%R (λ term2,
  rbind (pydiv ((k2 + 1) * 1) (k2 + 1))%R (λ term3,
  if nonzero term1 && nonzero term2 && nonzero term3
  then Ok (score + term1 * term2 * term3)%R
  else Ok score))))).

Definition bm25_bigK_pure (k1 b : R) (index : Index.t) (document : string)
    : result R :=
  rbind (fst (Index.getAverageDocumentLength index)) (λ avg,
  rbind (pydiv (IZR (Index.getDocumentLength index document)) avg) (λ ratio,
  Ok (k1 * ((1 - b) + b * ratio))%R)).

Definition bm25_document (k1 k2 b : R) (index : Index.t)
    (queryWords : list string) (results : QueryResults.t) (document : string)
    : result QueryResults.t :=
  rbind (bm25_bigK_pure k1 b index document) (λ bigK,
  rbind (foldR (bm25_term k1 k2 index bigK document) 0%R queryWords) (λ score,
  Ok (QueryResults.add results document score))).

(** The total of all position-list lengths of a postings table. *)
Definition index_total (ix : gmap string (gmap string (list Z))) : Z :=
  map_sum Index.posting_total ix.

(** Position lists are non-empty and belong to stored documents. *)
Definition positions_ok (docs : gmap string Document)
    (ix : gmap string (gmap string (list Z))) : Prop :=
  ∀ token posting document positions,
    ix !! token = Some posting →
    posting !! document = Some positions →
    positions ≠ [] ∧ is_Some (docs !! document).

(** What holds of every index that [buildIndex] returns. *)
Record built (index : Index.t) : Prop := mkBuilt {
  built_positions : positions_ok (Index.documents index) (Index.index index);
  built_count : Z.of_nat (size (Index.documents index)) ≤ Index.docCount index;
  built_cache : Index.totalTokenCount index = None
}.

(** ** The formulas of the specification *)

Definition Rsum (l : list R) : R := foldr Rplus 0%R l.

(** Documents containing at least one of the terms. *)
Definition spec_candidates (index : Index.t) (terms : list string)
    : gset string :=
  ⋃ (Index.getDocumentIDsForToken index <$> terms).

(** AND: membership in the intersection of [documentsContaining(term)] over
    the terms. *)
Definition spec_AND_member (index : Index.t) (terms : list string)
    (d : string) : Prop :=
  ∀ t, t ∈ terms → d ∈ Index.getDocumentIDsForToken index t.

Definition spec_totalTokenCount (index : Index.t) : Z :=
  fst (Index.getTotalTokenCount index).

(** QL: [log((tf + mu * (ctf / total)) / (dl + mu))] with [mu = 300]. *)
Definition spec_QL_term (index : Index.t) (d t : string) : R :=
  let numerator :=
    (IZR (Index.getTokenFrequencyInDocument index t d)
     + 300 * (IZR (Index.getTotalTokenFrequency index t)
              / IZR (spec_totalTokenCount index)))%R in
  let denominator := (IZR (Index.getDocumentLength index d) + 300)%R in
  ln (numerator / denominator).

Definition spec_QL_score (index : Index.t) (terms : list string) (d : string)
    : R :=
  Rsum (spec_QL_term index d <$> terms).

Definition spec_averageDocumentLength (index : Index.t) : R :=
  (IZR (spec_totalTokenCount index)
   / IZR (Index.getNumberOfDocuments index))%R.

(** BM25: [K = k1 * ((1 - b) + b * dl / avg)] with [k1 = 1.8], [b = 0.75]. *)
Definition spec_K (index : Index.t) (d : string) : R :=
  (1.8 * ((1 - 0.75)
          + 0.75 * (IZR (Index.getDocumentLength index d)
                    / spec_averageDocumentLength index)))%R.

Definition spec_term1 (index : Index.t) (t : string) : R :=
  let bigN := IZR (Index.getNumberOfDocuments index) in
  let n := IZR (Index.getTokenDocumentCount index t) in
  ln ((bigN - n + 0.5) / (n + 0.5)).

Definition spec_term2 (index : Index.t) (d t : string) : R :=
  let f := IZR (Index.getTokenFrequencyInDocument index t d) in
  ((1.8 + 1) * f / (spec_K index d + f))%R.

Definition spec_term3 : R := ((5 + 1) * 1 / (5 + 1))%R.

Definition spec_BM25_term (index : Index.t) (d t : string) : R :=
  (spec_term1 index t * spec_term2 index d t * spec_term3)%R.

(** The source's guard: the product is added when no factor is zero. *)
Definition spec_BM25_term_guarded (index : Index.t) (d t : string) : R :=
  if nonzero (spec_term1 index t) && nonzero (spec_term2 index d t)
     && nonzero spec_term3
  then spec_BM25_term index d t
  else 0%R.

Definition spec_BM25_score (index : Index.t) (terms : list string)
    (d : string) : R :=
  Rsum (spec_BM25_term index d <$> terms).

Definition spec_BM25_score_guarded (index : Index.t) (terms : list string)
    (d : string) : R :=
  Rsum (spec_BM25_term_guarded index d <$> terms).

(** A result collection given by its documents and a score per document. *)
Definition scored (method : string) (f : string → R) (docs : list string)
    : QueryResults.t :=
  QueryResults.mk ((λ d, mkQueryResult d (f d)) <$> docs) method.

(** The documents of a result collection. *)
Definition result_documents (r : QueryResults.t) : list string :=
  document <$> QueryResults.results r.

(** ** Example data *)

(** The corpus of the specification's end-to-end example. *)
Definition example_corpus : list Document :=
  [mkDocument "d1" "cat dog cat"; mkDocument "d2" "dog dog"].

Definition example_index : Index.t := buildIndex example_corpus.

Definition one_cat_corpus : list Document := [mkDocument "d1" "cat"].

Definition one_cat_index : Index.t := buildIndex one_cat_corpus.

(** A line of a query file: tab-separated fields and a line end. *)
Definition query_line (fields : list string) : string :=
  (String.concat (String tab EmptyString) fields
   ++ String newline EmptyString)%string.

(** A query file whose first line has an unknown tag. *)
Definition example_query_lines : list string :=
  [query_line ["FOO"; "q1"; "cat"]; query_line ["OR"; "q2"; "cat"]].

(** ** What the index records, read off a corpus *)

(** The positions of [token] in [tokens], counted from [i]. *)
Fixpoint positions_of (token : string) (tokens : list string) (i : Z)
    : list Z :=
  match tokens with
  | [] => []
  | t :: tokens' =>
      if decide (t = token) then i :: positions_of token tokens' (i + 1)
      else positions_of token tokens' (i + 1)
  end.

(** [ix[token][document]], when both keys are present. *)
Definition positions_at (ix : gmap string (gmap string (list Z)))
    (token document : string) : option (list Z) :=
  match ix !! token with
  | Some posting => posting !! document
  | None => None
  end.

(** The total frequency of [token] in a postings table. *)
Definition token_total (ix : gmap string (gmap string (list Z)))
    (token : string) : Z :=
  match ix !! token with
  | Some posting => Index.posting_total posting
  | None => 0
  end.

(** A position list after the positions [new] were appended one by one;
    the keys are only created by the first of them. *)
Definition appended (old : option (list Z)) (new : list Z)
    : option (list Z) :=
  match new with
  | [] => old
  | _ => Some (default [] old ++ new)%list
  end.

(** The positions that the documents with the ID [sid] contribute for
    [token], in the order of the corpus. *)
Definition corpus_positions (corpus : list Document) (token sid : string)
    : list Z :=
  concat ((λ d, if decide (storyID d = sid)
                then positions_of token (split (text d)) 0
                else []) <$> corpus).

(** The number of occurrences of [token] in [tokens]. *)
Definition occurrences (token : string) (tokens : list string) : Z :=
  Z.of_nat (length (filter (λ t, t = token) tokens)).

(** All tokens of a corpus. *)
Definition corpus_tokens (corpus : list Document) : list string :=
  concat ((λ d, split (text d)) <$> corpus).

(** The sum of a list of integers. *)
Definition Zsum (l : list Z) : Z := foldr Z.add 0 l.

(** ** Queries one at a time *)

(** [dispatch] on an index whose data is fixed. *)
Definition dispatch_pure (index : Index.t) (results : list QueryResults.t)
    (query : Query) : result (list QueryResults.t) :=
  if decide (upper (type query) = "AND")
  then Ok (results ++ [runANDQuery index (queryWords query)])%list
  else if decide (upper (type query) = "OR")
  then Ok (results ++ [runORQuery index (queryWords query)])%list
  else if decide (upper (type query) = "QL")
  then rbind (fst (runQLQuery (queryWords query) index)) (λ r,
       Ok (results ++ [r])%list)
  else if decide (upper (type query) = "BM25")
  then rbind (fst (runBM25Query (queryWords query) index)) (λ r,
       Ok (results ++ [r])%list)
  else Ok results.

(** The rows of one query, as [runQueries] writes them. *)
Definition query_rows (query : Query) (r : QueryResults.t) : list Row :=
  fst (QueryResults.getFinalResults r (queryName query) default_runTag).

(** Whether the character [c] occurs in [s]. *)
Fixpoint contains (c : ascii) (s : string) : bool :=
  match s with
  | EmptyString => false
  | String c' s' => if decide (c' = c) then true else contains c s'
  end.

(** Whether a score is the number [s]. *)
Definition same_score (s : R) (x : R) : bool :=
  if Req_dec_T x s then true else false.

(** ** The ranked models over any arithmetic

    The definitions above read Python numbers as exact reals.  Here the two
    ranked models are written once more, operation by operation, over an
    arithmetic [A] that says what the operations on [float] are: exact
    reals again, or binary64.  An [int] operand of a mixed operation is
    converted with [n_of_int]; operations on two [int]s stay in [Z], except
    the true division, which converts both. *)

Record Arith : Type := mkArith {
  num : Type;
  n_of_int : Z → num;
  n_add : num → num → num;
  n_sub : num → num → num;
  n_mul : num → num → num;
  (** [a / b] *)
  n_div : num → num → result num;
  (** [math.log] *)
  n_log : num → result num;
  (** [x != 0] *)
  n_nonzero : num → bool;
  (** the literals [1.8], [0.75] and [0.5] *)
  n_1_8 : num;
  n_0_75 : num;
  n_0_5 : num
}.

(** Exact arithmetic: the reading used above. *)
Definition exact : Arith :=
  mkArith R IZR Rplus Rminus Rmult pydiv pylog nonzero 1.8%R 0.75%R 0.5%R.

(** The conversion of an [int] to binary64, for integers below [2^63] in
    absolute value (it is exact below [2^53]). *)
Definition float_of_Z (z : Z) : float :=
  if z <? 0 then PrimFloat.opp (PrimFloat.of_uint63 (Uint63.of_Z (- z)))
  else PrimFloat.of_uint63 (Uint63.of_Z z).

Definition div64 (x y : float) : result float :=
  if PrimFloat.eqb y 0%float then Raise ZeroDivisionError
  else Ok (PrimFloat.div x y).

(** [math.log] calls the logarithm of the C library, [libm_log], on positive
    arguments; it returns NaN for NaN and raises otherwise. *)
Definition log64 (libm_log : float → float) (x : float) : result float :=
  if PrimFloat.ltb 0%float x then Ok (libm_log x)
  else if PrimFloat.is_nan x then Ok x
  else Raise ValueError.

(** Binary64 arithmetic, rounding to nearest, as Python's [float]. *)
Definition binary64 (libm_log : float → float) : Arith :=
  mkArith float float_of_Z PrimFloat.add PrimFloat.sub PrimFloat.mul div64
    (log64 libm_log) (λ x, negb (PrimFloat.eqb x 0%float))
    0x1.ccccccccccccdp+0%float 0.75%float 0.5%float.

Definition getAverageDocumentLength_in (A : Arith) : M (num A) :=
  λ s, let '(total, s') := Index.getTotalTokenCount s in
       (n_div A (n_of_int A total)
          (n_of_int A (Index.getNumberOfDocuments s')), s').

(** Body of the inner loop of [runQLQuery]; [u] is an [int]. *)
Definition ql_step_in (A : Arith) (u : Z) (document : string)
    (score : num A) (word : string) : M (num A) :=
  let* tf := gets (λ s, Index.getTokenFrequencyInDocument s word document) in
  let* ctf := gets (λ s, Index.getTotalTokenFrequency s word) in
  let* total := getTotalTokenCountM in
  let* ratio := lift (n_div A (n_of_int A ctf) (n_of_int A total)) in
  let numerator := n_add A (n_of_int A tf) (n_mul A (n_of_int A u) ratio) in
  let* dl := gets (λ s, Index.getDocumentLength s document) in
  let denominator := dl + u in
  let* quotient := lift (n_div A numerator (n_of_int A denominator)) in
  let* l := lift (n_log A quotient) in
  ret (n_add A score l).

(** The results are the pairs of a document and its score, in the order in
    which [results.add] is called; [score = 0] is the [int] 0. *)
Definition runQLQuery_in_with (A : Arith) (u : Z) (queryWords : list string)
    : M (list (string * num A)) :=
  let* documents := gets (λ s, union_documents s queryWords) in
  foldM (λ results document,
           let* score :=
             foldM (ql_step_in A u document) (n_of_int A 0) queryWords in
           ret (results ++ [(document, score)])%list)
    [] (elements documents).

Definition runQLQuery_in (A : Arith) (queryWords : list string)
    : M (list (string * num A)) :=
  runQLQuery_in_with A 300 queryWords.

Definition debug_print_in (A : Arith) (document word : string) : M unit :=
  if decide (word = "united" ∧ document = "24323-art19")
  then let* _ := gets (λ s, Index.getDocumentLength s document) in
       let* _ := getAverageDocumentLength_in A in
       ret tt
  else ret tt.

(** Body of the inner loop of [runBM25Query]; [k1] is a [float], [k2] and
    [q_fi] are [int]s. *)
Definition bm25_step_in (A : Arith) (k1 : num A) (k2 : Z) (bigK : num A)
    (document : string) (score : num A) (word : string) : M (num A) :=
  let q_fi := 1 in
  let* f_i := gets (λ s, Index.getTokenFrequencyInDocument s word document) in
  let* n_i := gets (λ s, Index.getTokenDocumentCount s word) in
  let* bigN := gets Index.getNumberOfDocuments in
  let* _ := debug_print_in A document word in
  let* odds :=
    lift (n_div A (n_add A (n_of_int A (bigN - n_i)) (n_0_5 A))
            (n_add A (n_of_int A n_i) (n_0_5 A))) in
  let* term1 := lift (n_log A odds) in
  let* term2 :=
    lift (n_div A (n_mul A (n_add A k1 (n_of_int A 1)) (n_of_int A f_i))
            (n_add A bigK (n_of_int A f_i))) in
  let* term3 :=
    lift (n_div A (n_of_int A ((k2 + 1) * q_fi)) (n_of_int A (k2 + q_fi))) in
  if n_nonzero A term1 && n_nonzero A term2 && n_nonzero A term3
  then ret (n_add A score (n_mul A (n_mul A term1 term2) term3))
  else ret score.

Definition bm25_bigK_in (A : Arith) (k1 b : num A) (document : string)
    : M (num A) :=
  let* dl := gets (λ s, Index.getDocumentLength s document) in
  let* avg := getAverageDocumentLength_in A in
  let* ratio := lift (n_div A (n_of_int A dl) avg) in
  ret (n_mul A k1
         (n_add A (n_sub A (n_of_int A 1) b) (n_mul A b ratio))).

Definition runBM25Query_in_with (A : Arith) (k1 : num A) (k2 : Z) (b : num A)
    (queryWords : list string) : M (list (string * num A)) :=
  let* documents := gets (λ s, union_documents s queryWords) in
  foldM (λ results document,
           let* bigK := bm25_bigK_in A k1 b document in
           let* score :=
             foldM (bm25_step_in A k1 k2 bigK document) (n_of_int A 0)
               queryWords in
           ret (results ++ [(document, score)])%list)
    [] (elements documents).

Definition runBM25Query_in (A : Arith) (queryWords : list string)
    : M (list (string * num A)) :=
  runBM25Query_in_with A (n_1_8 A) 5 (n_0_75 A) queryWords.

(** *** Scores as sums of contributions *)

(** What one occurrence of [word] contributes to the QL score of
    [document]: it depends on the index, the word and the document only. *)
Definition ql_contribution (A : Arith) (u : Z) (index : Index.t)
    (document word : string) : result (option (num A)) :=
  let tf := Index.getTokenFrequencyInDocument index word document in
  let ctf := Index.getTotalTokenFrequency index word in
  let total := fst (Index.getTotalTokenCount index) in
  let dl := Index.getDocumentLength index document in
  rbind (n_div A (n_of_int A ctf) (n_of_int A total)) (λ ratio,
  rbind (n_div A (n_add A (n_of_int A tf) (n_mul A (n_of_int A u) ratio))
           (n_of_int A (dl + u))) (λ quotient,
  rbind (n_log A quotient) (λ l, Ok (Some l)))).

Definition average_in (A : Arith) (index : Index.t) : result (num A) :=
  n_div A (n_of_int A (fst (Index.getTotalTokenCount index)))
    (n_of_int A (Index.getNumberOfDocuments index)).

Definition bigK_of (A : Arith) (k1 b : num A) (index : Index.t)
    (document : string) : result (num A) :=
  rbind (average_in A index) (λ avg,
  rbind (n_div A (n_of_int A (Index.getDocumentLength index document)) avg)
    (λ ratio,
  Ok (n_mul A k1
        (n_add A (n_sub A (n_of_int A 1) b) (n_mul A b ratio))))).

(** What one occurrence of [word] contributes to the BM25 score of
    [document]: the product of the three factors, or nothing when the guard
    skips it. *)
Definition bm25_contribution (A : Arith) (k1 : num A) (k2 : Z)
    (index : Index.t) (bigK : num A) (document word : string)
    : result (option (num A)) :=
  let f_i := Index.getTokenFrequencyInDocument index word document in
  let n_i := Index.getTokenDocumentCount index word in
  let bigN := Index.getNumberOfDocuments index in
  rbind (if decide (word = "united" ∧ document = "24323-art19")
         then rbind (average_in A index) (λ _, Ok tt) else Ok tt) (λ _,
  rbind (n_div A (n_add A (n_of_int A (bigN - n_i)) (n_0_5 A))
           (n_add A (n_of_int A n_i) (n_0_5 A))) (λ odds,
  rbind (n_log A odds) (λ term1,
  rbind (n_div A (n_mul A (n_add A k1 (n_of_int A 1)) (n_of_int A f_i))
           (n_add A bigK (n_of_int A f_i))) (λ term2,
  rbind (n_div A (n_of_int A ((k2 + 1) * 1)) (n_of_int A (k2 + 1)))
    (λ term3,
  if n_nonzero A term1 && n_nonzero A term2 && n_nonzero A term3
  then Ok (Some (n_mul A (n_mul A term1 term2) term3))
  else Ok None))))).

(** [score += c], or [score] as it is when the occurrence is skipped. *)
Definition plus (A : Arith) (score : num A) (c : option (num A)) : num A :=
  match c with
  | Some v => n_add A score v
  | None => score
  end.

(** The contributions added one after the other, from [score] on; the
    first one that raises ends the sum. *)
Definition accumulate_from (A : Arith) (score : num A)
    (cs : list (result (option (num A)))) : result (num A) :=
  foldR (λ s c, rbind c (λ o, Ok (plus A s o))) score cs.

Definition accumulate (A : Arith) (cs : list (result (option (num A))))
    : result (num A) :=
  accumulate_from A (n_of_int A 0) cs.

Definition QL_score_in (A : Arith) (index : Index.t) (q : list string)
    (d : string) : result (num A) :=
  accumulate A (ql_contribution A 300 index d <$> q).

Definition BM25_score_in (A : Arith) (index : Index.t) (q : list string)
    (d : string) : result (num A) :=
  rbind (bigK_of A (n_1_8 A) (n_0_75 A) index d) (λ bigK,
  accumulate A (bm25_contribution A (n_1_8 A) 5 index bigK d <$> q)).

(** One pair per document, in the order of [docs]; the first score that
    raises ends the loop. *)
Definition collect {N : Type} (f : string → result N) (docs : list string)
    : result (list (string * N)) :=
  foldR (λ rs d, rbind (f d) (λ s, Ok (rs ++ [(d, s)])%list)) [] docs.

(** *** An example in binary64 *)

(** The logarithm of the C library at the two arguments that the example
    reaches: the binary64 numbers nearest to [ln 0.25] and [ln 0.5]. *)
Definition libm_log_example (x : float) : float :=
  if PrimFloat.eqb x 0.25%float then (-0x1.62e42fefa39efp+0)%float
  else if PrimFloat.eqb x 0.5%float then (-0x1.62e42fefa39efp-1)%float
  else nan.

Definition emu_corpus : list Document := [mkDocument "d1" "cat dog emu emu"].

Definition emu_index : Index.t := buildIndex emu_corpus.

(** The documents and scores of a result collection, in its order. *)
Definition pairs_of (r : QueryResults.t) : list (string * R) :=
  (λ x, (document x, score x)) <$> QueryResults.results r.

(** The contributions with the default parameters of the two functions. *)
Definition QL_contribution_in (A : Arith) (index : Index.t)
    (d t : string) : result (option (num A)) :=
  ql_contribution A 300 index d t.

Definition BM25_contribution_in (A : Arith) (index : Index.t)
    (d t : string) : result (option (num A)) :=
  rbind (bigK_of A (n_1_8 A) (n_0_75 A) index d) (λ bigK,
  bm25_contribution A (n_1_8 A) 5 index bigK d t).

(** * Results about the embedding *)

(** ** The monad and the loops *)

Lemma same_data_refl (index : Index.t) : same_data index index.
Proof. by repeat split. Qed.

Lemma getTotalTokenCount_fst_snd (s : Index.t) :
  fst (Index.getTotalTokenCount (snd (Index.getTotalTokenCount s)))
  = fst (Index.getTotalTokenCount s).
Proof.
  unfold Index.getTotalTokenCount.
  destruct (Index.totalTokenCount s) eqn:E; simpl; [by rewrite E | done].
Qed.

Lemma getTotalTokenCount_same_data (s index : Index.t) :
  same_data s index → same_data (snd (Index.getTotalTokenCount s)) index.
Proof.
  intros (Hi & Hd & Hc & Ht). repeat split.
  - rewrite <- Hi. unfold Index.getTotalTokenCount.
    by destruct (Index.totalTokenCount s).
  - rewrite <- Hd. unfold Index.getTotalTokenCount.
    by destruct (Index.totalTokenCount s).
  - rewrite <- Hc. unfold Index.getTotalTokenCount.
    by destruct (Index.totalTokenCount s).
  - by rewrite getTotalTokenCount_fst_snd.
Qed.

Lemma getTotalTokenCountM_run (s index : Index.t) :
  same_data s index →
  ∃ s', getTotalTokenCountM s
        = (Ok (fst (Index.getTotalTokenCount index)), s')
        ∧ same_data s' index.
Proof.
  intros H. exists (snd (Index.getTotalTokenCount s)). split.
  - unfold getTotalTokenCountM. destruct H as (_ & _ & _ & <-).
    by destruct (Index.getTotalTokenCount s).
  - by apply getTotalTokenCount_same_data.
Qed.

Lemma getAverageDocumentLengthM_run (s index : Index.t) :
  same_data s index →
  ∃ s', getAverageDocumentLengthM s
        = (fst (Index.getAverageDocumentLength index), s')
        ∧ same_data s' index.
Proof.
  intros H. exists (snd (Index.getTotalTokenCount s)). split.
  - pose proof (getTotalTokenCount_same_data _ _ H) as (_ & _ & Hc & _).
    destruct H as (_ & _ & _ & Ht).
    unfold getAverageDocumentLengthM, Index.getAverageDocumentLength.
    destruct (Index.getTotalTokenCount s) as [n s1] eqn:E1.
    destruct (Index.getTotalTokenCount index) as [m s2] eqn:E2.
    simpl in *. subst m. unfold Index.getNumberOfDocuments. rewrite Hc.
    replace (Index.docCount s2) with (Index.docCount index); [done |].
    revert E2. unfold Index.getTotalTokenCount.
    destruct (Index.totalTokenCount index); by intros [= _ <-].
  - by apply getTotalTokenCount_same_data.
Qed.

(** Reading accessors do not look at the cache. *)
Lemma same_data_tf s index w d :
  same_data s index →
  Index.getTokenFrequencyInDocument s w d
  = Index.getTokenFrequencyInDocument index w d.
Proof.
  intros (Hi & _). unfold Index.getTokenFrequencyInDocument. by rewrite Hi.
Qed.

Lemma same_data_ctf s index w :
  same_data s index →
  Index.getTotalTokenFrequency s w = Index.getTotalTokenFrequency index w.
Proof. intros (Hi & _). unfold Index.getTotalTokenFrequency. by rewrite Hi. Qed.

Lemma same_data_df s index w :
  same_data s index →
  Index.getTokenDocumentCount s w = Index.getTokenDocumentCount index w.
Proof. intros (Hi & _). unfold Index.getTokenDocumentCount. by rewrite Hi. Qed.

Lemma same_data_dl s index d :
  same_data s index →
  Index.getDocumentLength s d = Index.getDocumentLength index d.
Proof. intros (_ & Hd & _). unfold Index.getDocumentLength. by rewrite Hd. Qed.

Lemma same_data_N s index :
  same_data s index →
  Index.getNumberOfDocuments s = Index.getNumberOfDocuments index.
Proof. by intros (_ & _ & Hc & _). Qed.

Lemma same_data_ids s index w :
  same_data s index →
  Index.getDocumentIDsForToken s w = Index.getDocumentIDsForToken index w.
Proof. intros (Hi & _). unfold Index.getDocumentIDsForToken. by rewrite Hi. Qed.

Lemma same_data_union s index q :
  same_data s index → union_documents s q = union_documents index q.
Proof.
  intros H. unfold union_documents. generalize (∅ : gset string).
  induction q as [| w q IH]; intros acc; simpl; [done |].
  by rewrite (same_data_ids _ _ _ H), IH.
Qed.

(** A loop whose body acts as a pure function on states with the data of
    [index] acts as the pure loop. *)
Lemma foldM_run {A B : Type} (index : Index.t) (f : B → A → M B)
    (g : B → A → result B) :
  (∀ acc x s, same_data s index →
     ∃ s', f acc x s = (g acc x, s') ∧ same_data s' index) →
  ∀ l acc s, same_data s index →
    ∃ s', foldM f acc l s = (foldR g acc l, s') ∧ same_data s' index.
Proof.
  intros Hf l. induction l as [| x l IH]; intros acc s Hs; simpl.
  - by exists s.
  - destruct (Hf acc x s Hs) as (s1 & E1 & Hs1).
    unfold bind. rewrite E1. destruct (g acc x) as [acc' | e]; simpl.
    + by apply IH.
    + by exists s1.
Qed.

Lemma ql_step_run u index d score w s :
  same_data s index →
  ∃ s', ql_step u d score w s = (ql_term u index d score w, s')
        ∧ same_data s' index.
Proof.
  intros Hs. destruct (getTotalTokenCountM_run _ _ Hs) as (s1 & E1 & Hs1).
  exists s1. split; [| done].
  unfold ql_step, ql_term, bind, gets, lift, ret. rewrite E1.
  rewrite (same_data_tf _ _ _ _ Hs), (same_data_ctf _ _ _ Hs),
    (same_data_dl _ _ _ Hs1).
  destruct (pydiv _ _) as [ratio |]; simpl; [| done].
  destruct (pydiv _ _) as [quotient |]; simpl; [| done].
  by destruct (pylog _).
Qed.

Lemma runQLQuery_with_run u q index s :
  same_data s index →
  ∃ s', runQLQuery_with u q s
        = (foldR (ql_document u index q) (QueryResults.init "QL")
             (elements (union_documents index q)), s')
        ∧ same_data s' index.
Proof.
  intros Hs. unfold runQLQuery_with, bind, gets at 1.
  rewrite (same_data_union _ _ _ Hs).
  apply foldM_run; [| done]. clear s Hs. intros results d s Hs.
  destruct (foldM_run index (ql_step u d) (ql_term u index d)
              (λ acc x s, ql_step_run u index d acc x s) q 0%R s Hs)
    as (s1 & E1 & Hs1).
  exists s1. split; [| done].
  unfold bind, ql_document. rewrite E1.
  by destruct (foldR _ _ _).
Qed.

Lemma debug_print_run index d w s :
  same_data s index →
  ∃ s', debug_print d w s = (debug_print_pure index d w, s')
        ∧ same_data s' index.
Proof.
  intros Hs. unfold debug_print, debug_print_pure.
  destruct (decide _); [| by exists s].
  destruct (getAverageDocumentLengthM_run _ _ Hs) as (s1 & E1 & Hs1).
  exists s1. split; [| done].
  unfold bind, gets, ret. rewrite E1.
  by destruct (fst (Index.getAverageDocumentLength index)).
Qed.

Lemma bm25_step_run k1 k2 bigK index d score w s :
  same_data s index →
  ∃ s', bm25_step k1 k2 bigK d score w s
        = (bm25_term k1 k2 index bigK d score w, s')
        ∧ same_data s' index.
Proof.
  intros Hs. destruct (debug_print_run index d w s Hs) as (s1 & E1 & Hs1).
  exists s1. split; [| done].
  unfold bm25_step, bm25_term, bind, gets, lift, ret. rewrite E1.
  rewrite (same_data_tf _ _ _ _ Hs), (same_data_df _ _ _ Hs),
    (same_data_N _ _ Hs).
  destruct (debug_print_pure _ _ _); simpl; [| done].
  destruct (pydiv _ _) as [odds |]; simpl; [| done].
  destruct (pylog _) as [term1 |]; simpl; [| done].
  destruct (pydiv _ _) as [term2 |]; simpl; [| done].
  destruct (pydiv _ _) as [term3 |]; simpl; [| done].
  by destruct (_ && _).
Qed.

Lemma bm25_bigK_run k1 b index d s :
  same_data s index →
  ∃ s', bm25_bigK k1 b d s = (bm25_bigK_pure k1 b index d, s')
        ∧ same_data s' index.
Proof.
  intros Hs. destruct (getAverageDocumentLengthM_run _ _ Hs) as (s1 & E1 & Hs1).
  exists s1. split; [| done].
  unfold bm25_bigK, bm25_bigK_pure, bind, gets, lift, ret. rewrite E1.
  rewrite (same_data_dl _ _ _ Hs).
  destruct (fst (Index.getAverageDocumentLength index)); simpl; [| done].
  by destruct (pydiv _ _).
Qed.

Lemma runBM25Query_with_run k1 k2 b q index s :
  same_data s index →
  ∃ s', runBM25Query_with k1 k2 b q s
        = (foldR (bm25_document k1 k2 b index q) (QueryResults.init "BM25")
             (elements (union_documents index q)), s')
        ∧ same_data s' index.
Proof.
  intros Hs. unfold runBM25Query_with, bind, gets at 1.
  rewrite (same_data_union _ _ _ Hs).
  apply foldM_run; [| done]. clear s Hs. intros results d s Hs.
  destruct (bm25_bigK_run k1 b index d s Hs) as (s1 & E1 & Hs1).
  rewrite E1. unfold bm25_document.
  destruct (bm25_bigK_pure k1 b index d) as [bigK | e]; simpl;
    [| by exists s1].
  destruct (foldM_run index (bm25_step k1 k2 bigK d)
              (bm25_term k1 k2 index bigK d)
              (λ acc x s, bm25_step_run k1 k2 bigK index d acc x s) q 0%R s1 Hs1)
    as (s2 & E2 & Hs2).
  exists s2. split; [| done].
  rewrite E2. by destruct (foldR _ _ _).
Qed.

(** ** Sums over dictionaries *)

Section map_sum.
Context {A : Type} (f : A → Z).

Lemma map_sum_empty : map_sum f ∅ = 0.
Proof. unfold map_sum. by rewrite map_fold_empty. Qed.

Lemma map_sum_insert_None (m : gmap string A) k x :
  m !! k = None → map_sum f (<[k:=x]> m) = map_sum f m + f x.
Proof.
  intros H. unfold map_sum. rewrite map_fold_insert_L; [done | | done].
  intros; lia.
Qed.

Lemma map_sum_delete (m : gmap string A) k y :
  m !! k = Some y → map_sum f m = map_sum f (delete k m) + f y.
Proof.
  intros H. rewrite <- (insert_delete_id m k y H) at 1.
  apply map_sum_insert_None, lookup_delete_eq.
Qed.

Lemma map_sum_insert_Some (m : gmap string A) k x y :
  m !! k = Some y → map_sum f (<[k:=x]> m) = map_sum f m - f y + f x.
Proof.
  intros H. rewrite <- insert_delete_eq.
  rewrite map_sum_insert_None by apply lookup_delete_eq.
  rewrite (map_sum_delete m k y H). lia.
Qed.

Lemma map_sum_nonneg (m : gmap string A) :
  (∀ k x, m !! k = Some x → 0 ≤ f x) → 0 ≤ map_sum f m.
Proof.
  unfold map_sum.
  apply (map_fold_weak_ind
           (λ r m, (∀ k x, m !! k = Some x → 0 ≤ f x) → 0 ≤ r)).
  - done.
  - intros i x m' r Hi IH Hall.
    assert (0 ≤ f x) by (apply (Hall i); apply lookup_insert_eq).
    assert (0 ≤ r); [| lia].
    apply IH. intros k y Hk. apply (Hall k).
    rewrite lookup_insert_ne; [done | congruence].
Qed.

Lemma map_sum_lookup_le (m : gmap string A) k x :
  (∀ k x, m !! k = Some x → 0 ≤ f x) → m !! k = Some x → f x ≤ map_sum f m.
Proof.
  intros Hall Hk. rewrite (map_sum_delete m k x Hk).
  assert (0 ≤ map_sum f (delete k m)); [| lia].
  apply map_sum_nonneg. intros j y Hj.
  apply lookup_delete_Some in Hj as [_ Hj]. by apply (Hall j).
Qed.

(** A loop over the keys that looks each key up again. *)
Lemma map_fold_keyed (g : string → Z) (m0 : gmap string A) :
  (∀ k x, m0 !! k = Some x → g k = f x) →
  map_fold (λ k _ acc, acc + g k) 0 m0 = map_sum f m0.
Proof.
  intros Hg.
  cut (m0 ⊆ m0 → map_fold (λ k (_ : A) acc, acc + g k) 0 m0 = map_sum f m0).
  { intros H. by apply H. }
  apply (map_fold_weak_ind
           (λ r m, m ⊆ m0 → r = map_sum f m)).
  - intros _. by rewrite map_sum_empty.
  - intros i x m r Hi IH Hsub.
    rewrite map_sum_insert_None by done.
    rewrite (Hg i x).
    + rewrite IH; [done |].
      etrans; [| exact Hsub]. by apply insert_subseteq.
    + eapply lookup_weaken; [| exact Hsub]. apply lookup_insert_eq.
Qed.
End map_sum.

(** ** Token counts of an index *)

Lemma posting_total_nonneg p : 0 ≤ Index.posting_total p.
Proof. apply map_sum_nonneg. intros; lia. Qed.

Lemma posting_total_lookup_le p d l :
  p !! d = Some l → Z.of_nat (length l) ≤ Index.posting_total p.
Proof.
  intros H. unfold Index.posting_total.
  apply (map_sum_lookup_le (λ positions : list Z, Z.of_nat (length positions)) p d l);
    [intros; lia | done].
Qed.

Lemma index_total_lookup_le ix t p :
  ix !! t = Some p → Index.posting_total p ≤ index_total ix.
Proof.
  intros H. apply (map_sum_lookup_le Index.posting_total ix t p); [| done].
  intros. apply posting_total_nonneg.
Qed.

Lemma sum_token_frequencies_eq (index : Index.t) :
  Index.sum_token_frequencies index = index_total (Index.index index).
Proof.
  unfold Index.sum_token_frequencies, index_total.
  apply (map_fold_keyed Index.posting_total).
  intros k x Hk. unfold Index.getTotalTokenFrequency. by rewrite Hk.
Qed.

Lemma getTotalTokenFrequency_nonneg index t :
  0 ≤ Index.getTotalTokenFrequency index t.
Proof.
  unfold Index.getTotalTokenFrequency.
  destruct (_ !! _); [apply posting_total_nonneg | lia].
Qed.

Lemma getTokenFrequencyInDocument_nonneg index t d :
  0 ≤ Index.getTokenFrequencyInDocument index t d.
Proof.
  unfold Index.getTokenFrequencyInDocument.
  destruct (_ !! _) as [p |]; [| lia]. destruct (_ !! _); lia.
Qed.

Lemma getTokenFrequencyInDocument_le index t d :
  Index.getTokenFrequencyInDocument index t d
  ≤ Index.getTotalTokenFrequency index t.
Proof.
  unfold Index.getTokenFrequencyInDocument, Index.getTotalTokenFrequency.
  destruct (_ !! _) as [p |]; [| lia].
  destruct (p !! d) as [l |] eqn:E.
  - by apply posting_total_lookup_le with d.
  - apply posting_total_nonneg.
Qed.

Lemma getDocumentLength_nonneg index d : 0 ≤ Index.getDocumentLength index d.
Proof. unfold Index.getDocumentLength. destruct (_ !! _); lia. Qed.

Lemma getTokenDocumentCount_nonneg index t :
  0 ≤ Index.getTokenDocumentCount index t.
Proof. unfold Index.getTokenDocumentCount. destruct (_ !! _); lia. Qed.

(** ** Index.add *)

(** The four dictionary updates of the loop body amount to one. *)
Lemma add_token_eq sid ix i token :
  Index.add_token sid (ix, i) token
  = (<[token :=
         <[sid := (default [] (default ∅ (ix !! token) !! sid) ++ [i])%list]>
           (default ∅ (ix !! token))]> ix,
     i + 1).
Proof.
  unfold Index.add_token. f_equal.
  destruct (ix !! token) as [p |] eqn:E; simpl.
  - rewrite E. simpl. destruct (p !! sid) as [l |] eqn:El; simpl.
    + by rewrite El.
    + rewrite lookup_insert_eq. simpl. by rewrite insert_insert_eq.
  - rewrite lookup_insert_eq. simpl. rewrite lookup_empty.
    rewrite lookup_insert_eq. simpl.
    by rewrite !insert_insert_eq.
Qed.

Lemma index_total_add_token sid ix i token :
  index_total (fst (Index.add_token sid (ix, i) token)) = index_total ix + 1.
Proof.
  rewrite add_token_eq. simpl.
  set (p := default ∅ (ix !! token)).
  assert (Hp : Index.posting_total
                 (<[sid := (default [] (p !! sid) ++ [i])%list]> p)
               = Index.posting_total p + 1).
  { unfold Index.posting_total. destruct (p !! sid) as [l |] eqn:El; simpl.
    - rewrite (map_sum_insert_Some _ _ _ _ l El).
      rewrite length_app. simpl. lia.
    - rewrite map_sum_insert_None by done. simpl. lia. }
  unfold index_total. destruct (ix !! token) as [p0 |] eqn:E.
  - rewrite (map_sum_insert_Some _ _ _ _ p0 E).
    subst p. simpl in Hp. simpl. rewrite Hp. lia.
  - rewrite map_sum_insert_None by done.
    rewrite Hp. subst p. simpl. unfold Index.posting_total.
    rewrite map_sum_empty. lia.
Qed.

Lemma index_total_add_tokens sid tokens ix i :
  index_total (fst (fold_left (Index.add_token sid) tokens (ix, i)))
  = index_total ix + Z.of_nat (length tokens).
Proof.
  revert ix i. induction tokens as [| token tokens IH]; intros ix i.
  - simpl. lia.
  - cbn [fold_left length].
    pose proof (index_total_add_token sid ix i token) as H.
    destruct (Index.add_token sid (ix, i) token) as [ix' i'].
    rewrite IH. simpl in H. lia.
Qed.

Lemma index_total_add doc index :
  index_total (Index.index (Index.add doc index))
  = index_total (Index.index index) + Z.of_nat (length (split (text doc))).
Proof. apply index_total_add_tokens. Qed.

(** The sum of the lengths of the documents of a corpus. *)
Lemma index_total_build corpus index :
  index_total
    (Index.index (fold_left (λ ix d, Index.add d ix) corpus index))
  = index_total (Index.index index)
    + foldr Z.add 0 ((λ d, Z.of_nat (length (split (text d)))) <$> corpus).
Proof.
  revert index. induction corpus as [| d corpus IH]; intros index.
  - simpl. lia.
  - cbn [fold_left]. rewrite IH, index_total_add, fmap_cons.
    cbn [foldr]. lia.
Qed.

Lemma documents_build_notin corpus index sid :
  sid ∉ storyID <$> corpus →
  Index.documents (fold_left (λ ix d, Index.add d ix) corpus index) !! sid
  = Index.documents index !! sid.
Proof.
  revert index. induction corpus as [| d corpus IH]; intros index Hn; simpl.
  - done.
  - rewrite fmap_cons in Hn. apply not_elem_of_cons in Hn as [Hne Hn].
    rewrite IH by done. simpl. by rewrite lookup_insert_ne.
Qed.

Lemma documents_build_lookup corpus index d :
  NoDup (storyID <$> corpus) → d ∈ corpus →
  Index.documents (fold_left (λ ix d, Index.add d ix) corpus index)
    !! storyID d = Some d.
Proof.
  revert index. induction corpus as [| d0 corpus IH]; intros index Hnd Hin.
  - by apply elem_of_nil in Hin.
  - rewrite fmap_cons in Hnd. apply NoDup_cons in Hnd as [Hnotin Hnd].
    apply elem_of_cons in Hin as [-> | Hin]; simpl.
    + rewrite documents_build_notin by done. simpl. apply lookup_insert_eq.
    + by apply IH.
Qed.

Lemma cache_build corpus index :
  Index.totalTokenCount (fold_left (λ ix d, Index.add d ix) corpus index)
  = Index.totalTokenCount index.
Proof.
  revert index. induction corpus as [| d corpus IH]; intros index; simpl;
    [done | by rewrite IH].
Qed.

Lemma getTotalTokenCount_uncached index :
  Index.totalTokenCount index = None →
  fst (Index.getTotalTokenCount index) = index_total (Index.index index).
Proof.
  intros H. unfold Index.getTotalTokenCount. rewrite H. simpl.
  apply sum_token_frequencies_eq.
Qed.

Lemma index_total_init : index_total (Index.index Index.init) = 0.
Proof. apply map_sum_empty. Qed.

(** ** What buildIndex establishes *)

Section positions.
Context (docs : gmap string Document) (sid : string).
Hypothesis sid_known : is_Some (docs !! sid).

Lemma positions_ok_add_token ix i token :
  positions_ok docs ix →
  positions_ok docs (fst (Index.add_token sid (ix, i) token)).
Proof.
  intros Hok t p d l. rewrite add_token_eq. simpl.
  destruct (decide (token = t)) as [<- | Hne].
  - rewrite lookup_insert_eq. intros [= <-].
    destruct (decide (sid = d)) as [<- | Hned].
    + rewrite lookup_insert_eq. intros [= <-]. split; [| done].
      by destruct (default [] _).
    + rewrite lookup_insert_ne by done.
      destruct (ix !! token) as [p0 |] eqn:E; simpl.
      * by apply Hok with token.
      * by rewrite lookup_empty.
  - rewrite lookup_insert_ne by done. apply Hok.
Qed.

Lemma positions_ok_add_tokens tokens ix i :
  positions_ok docs ix →
  positions_ok docs (fst (fold_left (Index.add_token sid) tokens (ix, i))).
Proof.
  revert ix i. induction tokens as [| token tokens IH]; intros ix i Hok.
  - done.
  - cbn [fold_left].
    pose proof (positions_ok_add_token ix i token Hok) as H.
    destruct (Index.add_token sid (ix, i) token) as [ix' i'].
    by apply IH.
Qed.
End positions.

Lemma built_init : built Index.init.
Proof.
  split; simpl.
  - intros t p d l. by rewrite lookup_empty.
  - by rewrite map_size_empty.
  - done.
Qed.

Lemma built_add doc index : built index → built (Index.add doc index).
Proof.
  intros [Hpos Hcount Hcache]. split; simpl.
  - apply positions_ok_add_tokens; [by rewrite lookup_insert_eq |].
    intros t p d l Ht Hd. destruct (Hpos t p d l Ht Hd) as [Hl Hdoc].
    split; [done |].
    destruct (decide (storyID doc = d)) as [<- | Hne].
    + by rewrite lookup_insert_eq.
    + by rewrite lookup_insert_ne.
  - rewrite map_size_insert.
    destruct (Index.documents index !! storyID doc); simpl; lia.
  - done.
Qed.

Lemma built_build_from corpus index :
  built index → built (fold_left (λ ix d, Index.add d ix) corpus index).
Proof.
  revert index. induction corpus as [| d corpus IH]; intros index H; simpl.
  - done.
  - by apply IH, built_add.
Qed.

Lemma built_buildIndex corpus : built (buildIndex corpus).
Proof. apply built_build_from, built_init. Qed.

Lemma built_total index :
  built index →
  fst (Index.getTotalTokenCount index) = index_total (Index.index index).
Proof. intros [_ _ H]. by apply getTotalTokenCount_uncached. Qed.

(** No term occurs in more documents than were added. *)
Lemma built_df_le index t :
  built index →
  Index.getTokenDocumentCount index t ≤ Index.getNumberOfDocuments index.
Proof.
  intros [Hpos Hcount _]. unfold Index.getTokenDocumentCount.
  unfold Index.getNumberOfDocuments.
  destruct (Index.index index !! t) as [p |] eqn:E.
  - assert (size (dom p) ≤ size (dom (Index.documents index)))%nat as Hle.
    { apply subseteq_size. intros d Hd.
      apply elem_of_dom in Hd as [l Hl]. apply elem_of_dom.
      by destruct (Hpos t p d l E Hl). }
    rewrite !size_dom in Hle. lia.
  - pose proof (Nat2Z.is_nonneg (size (Index.documents index))). lia.
Qed.

Lemma elem_of_union_documents index q d :
  d ∈ union_documents index q
  ↔ ∃ t, t ∈ q ∧ d ∈ Index.getDocumentIDsForToken index t.
Proof.
  unfold union_documents.
  assert (∀ acc, d ∈ fold_left
                   (λ documents word,
                      documents ∪ Index.getDocumentIDsForToken index word)
                   q acc
                 ↔ d ∈ acc ∨ ∃ t, t ∈ q ∧ d ∈ Index.getDocumentIDsForToken index t)
    as H.
  { induction q as [| w q IH]; intros acc; simpl.
    - split; [by left |]. intros [H | (t & Ht & _)]; [done |].
      by apply elem_of_nil in Ht.
    - rewrite IH, elem_of_union. split.
      + intros [[H | H] | (t & Ht & H)]; [by left | |].
        * right. exists w. split; [left | done].
        * right. exists t. split; [by right | done].
      + intros [H | (t & Ht & H)]; [by left; left |].
        apply elem_of_cons in Ht as [-> | Ht]; [by left; right |].
        right. by exists t. }
  rewrite H. split; [| by right]. intros [Hd | Hd]; [| done].
  by apply not_elem_of_empty in Hd.
Qed.

Lemma union_documents_spec index q :
  union_documents index q = spec_candidates index q.
Proof.
  apply set_eq. intros d. rewrite elem_of_union_documents.
  unfold spec_candidates. rewrite elem_of_union_list. split.
  - intros (t & Ht & Hd). exists (Index.getDocumentIDsForToken index t).
    split; [| done]. apply list_elem_of_fmap. by exists t.
  - intros (X & HX & Hd). apply list_elem_of_fmap in HX as (t & -> & Ht).
    by exists t.
Qed.

(** A document that contains a term is counted. *)
Lemma contains_tf index t d :
  built index → d ∈ Index.getDocumentIDsForToken index t →
  1 ≤ Index.getTokenFrequencyInDocument index t d.
Proof.
  intros [Hpos _ _]. unfold Index.getDocumentIDsForToken.
  unfold Index.getTokenFrequencyInDocument.
  destruct (Index.index index !! t) as [p |] eqn:E.
  - intros Hd. apply elem_of_dom in Hd as [l Hl]. rewrite Hl.
    destruct (Hpos t p d l E Hl) as [Hne _].
    destruct l; [done | simpl; lia].
  - intros Hd. by apply not_elem_of_empty in Hd.
Qed.

Lemma contains_df index t d :
  d ∈ Index.getDocumentIDsForToken index t →
  1 ≤ Index.getTokenDocumentCount index t.
Proof.
  unfold Index.getDocumentIDsForToken, Index.getTokenDocumentCount.
  destruct (Index.index index !! t) as [p |] eqn:E.
  - intros Hd. apply elem_of_dom in Hd as [l Hl].
    assert (size p ≠ 0%nat); [| lia].
    apply map_size_non_empty_iff. intros ->. by rewrite lookup_empty in Hl.
  - intros Hd. by apply not_elem_of_empty in Hd.
Qed.

Lemma getTotalTokenFrequency_le_total index t :
  built index →
  Index.getTotalTokenFrequency index t ≤ fst (Index.getTotalTokenCount index).
Proof.
  intros Hb. rewrite (built_total _ Hb). unfold Index.getTotalTokenFrequency.
  destruct (Index.index index !! t) as [p |] eqn:E.
  - by apply index_total_lookup_le with t.
  - apply map_sum_nonneg. intros. apply posting_total_nonneg.
Qed.

(** With a candidate document, the corpus has a token and a document. *)
Lemma candidate_total index q d :
  built index → d ∈ union_documents index q →
  1 ≤ fst (Index.getTotalTokenCount index)
  ∧ 1 ≤ Index.getNumberOfDocuments index.
Proof.
  intros Hb Hd. apply elem_of_union_documents in Hd as (t & _ & Hd).
  pose proof (contains_tf _ _ _ Hb Hd).
  pose proof (getTokenFrequencyInDocument_le index t d).
  pose proof (getTotalTokenFrequency_le_total index t Hb).
  pose proof (contains_df _ _ _ Hd).
  pose proof (built_df_le index t Hb).
  lia.
Qed.

(** ** Arithmetic that raises *)

Lemma pydiv_ok (a b : R) : b ≠ 0%R → pydiv a b = Ok (a / b)%R.
Proof. intros H. unfold pydiv. by destruct (Req_dec_T b 0). Qed.

Lemma pydiv_zero (a : R) : pydiv a 0 = Raise ZeroDivisionError.
Proof. unfold pydiv. by destruct (Req_dec_T 0 0). Qed.

Lemma pylog_ok (x : R) : (0 < x)%R → pylog x = Ok (ln x).
Proof. intros H. unfold pylog. by destruct (Rlt_dec 0 x). Qed.

Lemma pylog_raise (x : R) : (x <= 0)%R → pylog x = Raise ValueError.
Proof. intros H. unfold pylog. destruct (Rlt_dec 0 x); [lra | done]. Qed.

Lemma nonzero_true (x : R) : nonzero x = true ↔ x ≠ 0%R.
Proof. unfold nonzero. by destruct (Req_dec_T x 0). Qed.

Lemma nonzero_false (x : R) : nonzero x = false ↔ x = 0%R.
Proof. unfold nonzero. destruct (Req_dec_T x 0); split; congruence. Qed.

Lemma IZR_nonneg (z : Z) : 0 ≤ z → (0 <= IZR z)%R.
Proof. intros H. by apply (IZR_le 0 z). Qed.

Lemma IZR_pos (z : Z) : 0 < z → (0 < IZR z)%R.
Proof. intros H. by apply (IZR_lt 0 z). Qed.

Lemma Rsum_cons (x : R) (l : list R) : Rsum (x :: l) = (x + Rsum l)%R.
Proof. done. Qed.

(** ** Loops that collect scored documents *)

Lemma foldR_add_ok (body : QueryResults.t → string → result QueryResults.t)
    (f : string → R) (docs : list string) (results : QueryResults.t) :
  (∀ results d, d ∈ docs →
     body results d = Ok (QueryResults.add results d (f d))) →
  foldR body results docs
  = Ok (QueryResults.mk
          (QueryResults.results results
           ++ ((λ d, mkQueryResult d (f d)) <$> docs))%list
          (QueryResults.method results)).
Proof.
  revert results. induction docs as [| d docs IH]; intros results H; simpl.
  - rewrite app_nil_r. by destruct results.
  - rewrite (H results d) by left. simpl. rewrite IH.
    + simpl. by rewrite <- app_assoc.
    + intros results' d' Hd'. apply H. by right.
Qed.

(** ** Query likelihood *)

Section ql.
Context (index : Index.t).
Hypothesis total_pos : 0 < fst (Index.getTotalTokenCount index).

Lemma ql_term_ok d score t :
  0 < Index.getTotalTokenFrequency index t →
  ql_term 300 index d score t = Ok (score + spec_QL_term index d t)%R.
Proof.
  intros Hctf. unfold ql_term, spec_QL_term, spec_totalTokenCount.
  pose proof (IZR_pos _ total_pos) as Htot.
  pose proof (IZR_pos _ Hctf) as Hc.
  pose proof (IZR_nonneg _ (getTokenFrequencyInDocument_nonneg index t d)) as Htf.
  pose proof (IZR_nonneg _ (getDocumentLength_nonneg index d)) as Hdl.
  rewrite pydiv_ok by lra. simpl.
  rewrite pydiv_ok by lra. simpl.
  rewrite pylog_ok; [done |].
  apply Rdiv_lt_0_compat; [| lra].
  assert (0 < IZR (Index.getTotalTokenFrequency index t)
              / IZR (fst (Index.getTotalTokenCount index)))%R
    by (by apply Rdiv_lt_0_compat).
  lra.
Qed.

Lemma ql_term_absent d score t :
  Index.getTotalTokenFrequency index t = 0 →
  ql_term 300 index d score t = Raise ValueError.
Proof.
  intros Hctf. unfold ql_term.
  pose proof (IZR_pos _ total_pos) as Htot.
  pose proof (IZR_nonneg _ (getDocumentLength_nonneg index d)) as Hdl.
  assert (Index.getTokenFrequencyInDocument index t d = 0) as ->.
  { pose proof (getTokenFrequencyInDocument_nonneg index t d).
    pose proof (getTokenFrequencyInDocument_le index t d). lia. }
  rewrite Hctf.
  rewrite pydiv_ok by lra. simpl.
  rewrite pydiv_ok by lra. simpl.
  rewrite pylog_raise; [done |]. right. unfold Rdiv. lra.
Qed.

Lemma ql_terms_ok d q score :
  (∀ t, t ∈ q → 0 < Index.getTotalTokenFrequency index t) →
  foldR (ql_term 300 index d) score q
  = Ok (score + Rsum (spec_QL_term index d <$> q))%R.
Proof.
  revert score. induction q as [| t q IH]; intros score H.
  - simpl. f_equal. lra.
  - cbn [foldR]. rewrite ql_term_ok by (apply H; left). cbn [rbind].
    rewrite IH by (intros; apply H; by right).
    rewrite fmap_cons, Rsum_cons. f_equal. lra.
Qed.

Lemma ql_terms_absent d q score t :
  t ∈ q → Index.getTotalTokenFrequency index t = 0 →
  foldR (ql_term 300 index d) score q = Raise ValueError.
Proof.
  intros Ht H0. revert score.
  induction q as [| t' q IH]; intros score; [by apply elem_of_nil in Ht |].
  simpl.
  destruct (decide (Index.getTotalTokenFrequency index t' = 0)) as [E | E].
  - by rewrite ql_term_absent.
  - rewrite ql_term_ok.
    + simpl. apply IH. apply elem_of_cons in Ht as [-> | Ht]; [done | done].
    + pose proof (getTotalTokenFrequency_nonneg index t'). lia.
Qed.
End ql.

Lemma runQLQuery_fst q index :
  fst (runQLQuery q index)
  = foldR (ql_document 300 index q) (QueryResults.init "QL")
      (elements (spec_candidates index q)).
Proof.
  destruct (runQLQuery_with_run 300 q index index (same_data_refl index))
    as (s' & E & _).
  unfold runQLQuery. rewrite E. simpl. by rewrite union_documents_spec.
Qed.

Lemma runBM25Query_fst q index :
  fst (runBM25Query q index)
  = foldR (bm25_document 1.8 5 0.75 index q) (QueryResults.init "BM25")
      (elements (spec_candidates index q)).
Proof.
  destruct (runBM25Query_with_run 1.8 5 0.75 q index index
              (same_data_refl index)) as (s' & E & _).
  unfold runBM25Query. rewrite E. simpl. by rewrite union_documents_spec.
Qed.

(** Every query term occurs in the corpus: the scores are the formula. *)
Lemma runQLQuery_ok index q :
  0 < fst (Index.getTotalTokenCount index) →
  (∀ t, t ∈ q → 0 < Index.getTotalTokenFrequency index t) →
  fst (runQLQuery q index)
  = Ok (scored "QL" (spec_QL_score index q)
          (elements (spec_candidates index q))).
Proof.
  intros Htot Hq. rewrite runQLQuery_fst.
  rewrite (foldR_add_ok _ (spec_QL_score index q)); [done |].
  intros results d _. unfold ql_document.
  rewrite ql_terms_ok by done. cbn [rbind]. do 2 f_equal.
  unfold spec_QL_score. lra.
Qed.

(** A candidate document and a query term that the corpus does not have:
    [math.log] is applied to 0. *)
Lemma runQLQuery_absent index q t :
  0 < fst (Index.getTotalTokenCount index) →
  t ∈ q → Index.getTotalTokenFrequency index t = 0 →
  spec_candidates index q ≠ ∅ →
  fst (runQLQuery q index) = Raise ValueError.
Proof.
  intros Htot Ht H0 Hne. rewrite runQLQuery_fst.
  destruct (elements (spec_candidates index q)) as [| d docs] eqn:E.
  - apply elements_empty_inv in E. by apply leibniz_equiv in E.
  - cbn [foldR]. unfold ql_document at 1.
    by rewrite (ql_terms_absent index Htot d q 0%R t).
Qed.

Lemma runQLQuery_no_candidates index q :
  spec_candidates index q = ∅ →
  fst (runQLQuery q index) = Ok (QueryResults.init "QL").
Proof. intros H. rewrite runQLQuery_fst, H, elements_empty. done. Qed.

(** ** BM25 *)

Lemma getAverageDocumentLength_fst index :
  fst (Index.getAverageDocumentLength index)
  = pydiv (IZR (fst (Index.getTotalTokenCount index)))
      (IZR (Index.getNumberOfDocuments index)).
Proof.
  unfold Index.getAverageDocumentLength, Index.getTotalTokenCount.
  by destruct (Index.totalTokenCount index).
Qed.

(** A zero factor makes the product zero: the guard changes no score. *)
Lemma spec_BM25_term_guarded_eq index d t :
  spec_BM25_term_guarded index d t = spec_BM25_term index d t.
Proof.
  unfold spec_BM25_term_guarded, spec_BM25_term.
  destruct (nonzero (spec_term1 index t)) eqn:E1; simpl.
  - destruct (nonzero (spec_term2 index d t)) eqn:E2; simpl.
    + destruct (nonzero spec_term3) eqn:E3; [done |].
      apply nonzero_false in E3. rewrite E3. lra.
    + apply nonzero_false in E2. rewrite E2. lra.
  - apply nonzero_false in E1. rewrite E1. lra.
Qed.

Lemma spec_BM25_score_guarded_eq index q d :
  spec_BM25_score_guarded index q d = spec_BM25_score index q d.
Proof.
  unfold spec_BM25_score_guarded, spec_BM25_score. f_equal.
  apply list_fmap_ext. intros _ t _. apply spec_BM25_term_guarded_eq.
Qed.

Section bm25.
Context (index : Index.t) (q : list string) (d : string).
Hypothesis index_built : built index.
Hypothesis candidate : d ∈ spec_candidates index q.

Lemma candidate_counts :
  (1 <= IZR (fst (Index.getTotalTokenCount index)))%R
  ∧ (1 <= IZR (Index.getNumberOfDocuments index))%R.
Proof.
  rewrite <- union_documents_spec in candidate.
  destruct (candidate_total index q d index_built candidate) as [H1 H2].
  split; by apply (IZR_le 1).
Qed.

Lemma spec_averageDocumentLength_pos :
  (0 < spec_averageDocumentLength index)%R.
Proof.
  destruct candidate_counts as [H1 H2]. unfold spec_averageDocumentLength.
  unfold spec_totalTokenCount. apply Rdiv_lt_0_compat; lra.
Qed.

Lemma averageDocumentLength_ok :
  fst (Index.getAverageDocumentLength index)
  = Ok (spec_averageDocumentLength index).
Proof.
  destruct candidate_counts as [H1 H2].
  rewrite getAverageDocumentLength_fst. apply pydiv_ok. lra.
Qed.

Lemma spec_K_pos : (0 < spec_K index d)%R.
Proof.
  pose proof spec_averageDocumentLength_pos as Havg.
  pose proof (IZR_nonneg _ (getDocumentLength_nonneg index d)) as Hdl.
  unfold spec_K.
  assert (0 <= IZR (Index.getDocumentLength index d)
               / spec_averageDocumentLength index)%R.
  { unfold Rdiv. apply Rmult_le_pos; [lra |].
    left. by apply Rinv_0_lt_compat. }
  lra.
Qed.

Lemma bm25_bigK_ok :
  bm25_bigK_pure 1.8 0.75 index d = Ok (spec_K index d).
Proof.
  pose proof spec_averageDocumentLength_pos as Havg.
  unfold bm25_bigK_pure. rewrite averageDocumentLength_ok. simpl.
  rewrite pydiv_ok by lra. done.
Qed.

Lemma bm25_term_ok score t :
  bm25_term 1.8 5 index (spec_K index d) d score t
  = Ok (score + spec_BM25_term_guarded index d t)%R.
Proof.
  pose proof spec_K_pos as HK.
  pose proof (IZR_nonneg _ (getTokenFrequencyInDocument_nonneg index t d)) as Hf.
  pose proof (IZR_nonneg _ (getTokenDocumentCount_nonneg index t)) as Hn.
  pose proof (IZR_le _ _ (built_df_le index t index_built)) as HN.
  unfold bm25_term.
  assert (debug_print_pure index d t = Ok tt) as ->.
  { unfold debug_print_pure. destruct (decide _); [| done].
    by rewrite averageDocumentLength_ok. }
  cbn [rbind]. rewrite minus_IZR.
  rewrite pydiv_ok by lra. cbn [rbind].
  rewrite pylog_ok by (apply Rdiv_lt_0_compat; lra). cbn [rbind].
  rewrite pydiv_ok by lra. cbn [rbind].
  rewrite pydiv_ok by lra. cbn [rbind].
  unfold spec_BM25_term_guarded, spec_BM25_term.
  change (ln ((IZR (Index.getNumberOfDocuments index)
               - IZR (Index.getTokenDocumentCount index t) + 0.5)
              / (IZR (Index.getTokenDocumentCount index t) + 0.5)))
    with (spec_term1 index t).
  change ((1.8 + 1) * IZR (Index.getTokenFrequencyInDocument index t d)
          / (spec_K index d + IZR (Index.getTokenFrequencyInDocument index t d)))%R
    with (spec_term2 index d t).
  change ((5 + 1) * 1 / (5 + 1))%R with spec_term3.
  destruct (_ && _); f_equal; lra.
Qed.

Lemma bm25_terms_ok terms score :
  foldR (bm25_term 1.8 5 index (spec_K index d) d) score terms
  = Ok (score + Rsum (spec_BM25_term_guarded index d <$> terms))%R.
Proof.
  revert score. induction terms as [| t terms IH]; intros score.
  - simpl. f_equal. lra.
  - cbn [foldR]. rewrite bm25_term_ok. cbn [rbind]. rewrite IH.
    rewrite fmap_cons, Rsum_cons. f_equal. lra.
Qed.
End bm25.

(** On an index that [buildIndex] returned, BM25 raises nothing. *)
Lemma runBM25Query_ok index q :
  built index →
  fst (runBM25Query q index)
  = Ok (scored "BM25" (spec_BM25_score_guarded index q)
          (elements (spec_candidates index q))).
Proof.
  intros Hb. rewrite runBM25Query_fst.
  rewrite (foldR_add_ok _ (spec_BM25_score_guarded index q)); [done |].
  intros results d Hd. apply elem_of_elements in Hd. unfold bm25_document.
  rewrite (bm25_bigK_ok index q d Hb Hd). cbn [rbind].
  rewrite (bm25_terms_ok index q d Hb Hd). cbn [rbind]. do 2 f_equal.
  unfold spec_BM25_score_guarded. lra.
Qed.

(** ** The boolean models *)

Lemma fold_add_scored (c : R) (docs : list string) (results : QueryResults.t) :
  fold_left (λ results document, QueryResults.add results document c) docs
    results
  = QueryResults.mk
      (QueryResults.results results
       ++ ((λ d, mkQueryResult d c) <$> docs))%list
      (QueryResults.method results).
Proof.
  revert results. induction docs as [| d docs IH]; intros results; simpl.
  - rewrite app_nil_r. by destruct results.
  - rewrite IH. simpl. by rewrite <- app_assoc.
Qed.

Lemma runORQuery_eq index q :
  runORQuery index q
  = scored "OR" (λ _, 1%R) (elements (spec_candidates index q)).
Proof.
  unfold runORQuery. by rewrite fold_add_scored, union_documents_spec.
Qed.

Lemma runANDQuery_eq index q :
  runANDQuery index q
  = scored "AND" (λ _, 1%R) (elements (intersect_documents index q)).
Proof. unfold runANDQuery. by rewrite fold_add_scored. Qed.

Lemma result_documents_scored method f docs :
  result_documents (scored method f docs) = docs.
Proof.
  unfold result_documents, scored. simpl. rewrite <- list_fmap_compose.
  by rewrite list_fmap_id.
Qed.

(** After the first iteration the loop of [runANDQuery] only intersects. *)
Lemma elem_of_intersect_from index q acc d :
  d ∈ fst (fold_left
             (λ (st : gset string * bool) word,
                let relevantDocs := Index.getDocumentIDsForToken index word in
                if snd st then (relevantDocs, false)
                else (fst st ∩ relevantDocs, false))
             q (acc, false))
  ↔ d ∈ acc ∧ ∀ t, t ∈ q → d ∈ Index.getDocumentIDsForToken index t.
Proof.
  revert acc. induction q as [| w q IH]; intros acc; simpl.
  - split; [| by intros [? _]]. intros H. split; [done |].
    intros t Ht. by apply elem_of_nil in Ht.
  - rewrite IH, elem_of_intersection. split.
    + intros [[Ha Hw] Hq]. split; [done |]. intros t Ht.
      apply elem_of_cons in Ht as [-> | Ht]; [done | by apply Hq].
    + intros [Ha Hq]. split; [split; [done |] |].
      * apply Hq. left.
      * intros t Ht. apply Hq. by right.
Qed.

Lemma elem_of_intersect_documents index q d :
  q ≠ [] →
  d ∈ intersect_documents index q ↔ spec_AND_member index q d.
Proof.
  intros Hq. destruct q as [| w q]; [done |].
  unfold intersect_documents, spec_AND_member. simpl.
  rewrite elem_of_intersect_from. split.
  - intros [Hw Hq'] t Ht.
    apply elem_of_cons in Ht as [-> | Ht]; [done | by apply Hq'].
  - intros H. split; [apply H; left |]. intros t Ht. apply H. by right.
Qed.

Lemma intersect_documents_nil index : intersect_documents index [] = ∅.
Proof. done. Qed.

(** ** Sorting *)

Section sorting.
Context {A : Type} (le : A → A → bool).

Lemma insert_by_perm x l : insert_by le x l ≡ₚ x :: l.
Proof.
  induction l as [| y l IH]; simpl; [done |].
  destruct (le x y); [done |]. rewrite IH. apply Permutation_swap.
Qed.

Lemma sort_by_perm l : sort_by le l ≡ₚ l.
Proof.
  induction l as [| x l IH]; simpl; [done |].
  fold (sort_by le l). by rewrite insert_by_perm, IH.
Qed.

Hypothesis le_total : ∀ x y, le x y = false → le y x = true.
Hypothesis le_trans : ∀ x y z, le x y = true → le y z = true → le x z = true.

Lemma insert_by_sorted x l :
  StronglySorted (λ a b, le a b = true) l →
  StronglySorted (λ a b, le a b = true) (insert_by le x l).
Proof.
  induction 1 as [| y l Hs IH Hy]; simpl.
  - repeat constructor.
  - destruct (le x y) eqn:E.
    + constructor; [by constructor |]. constructor; [done |].
      eapply Forall_impl; [exact Hy |]. intros z Hz. by eapply le_trans.
    + constructor; [done |].
      eapply Permutation_Forall; [symmetry; apply insert_by_perm |].
      constructor; [by apply le_total | done].
Qed.

Lemma sort_by_sorted l : StronglySorted (λ a b, le a b = true) (sort_by le l).
Proof.
  induction l as [| x l IH]; simpl; [constructor |].
  by apply insert_by_sorted.
Qed.

(** Stability: elements that compare equal keep their order. *)
Lemma insert_by_filter (P : A → bool) x l :
  (∀ y, P x = true → P y = true → le x y = true) →
  List.filter P (insert_by le x l) = List.filter P (x :: l).
Proof.
  intros HP. induction l as [| y l IH]; [done |].
  cbn [insert_by]. destruct (le x y) eqn:E; [done |].
  cbn [List.filter] in *. rewrite IH.
  destruct (P x) eqn:Ex; [| done].
  destruct (P y) eqn:Ey; [| done].
  rewrite HP in E; done.
Qed.

Lemma sort_by_stable z l :
  List.filter (λ y, le z y && le y z) (sort_by le l)
  = List.filter (λ y, le z y && le y z) l.
Proof.
  induction l as [| x l IH]; [done |].
  cbn [sort_by foldr]. fold (sort_by le l). rewrite insert_by_filter.
  - cbn [List.filter]. by rewrite IH.
  - intros y [_ Hxz]%andb_prop [Hzy _]%andb_prop. by eapply le_trans.
Qed.
End sorting.

Lemma ascii_compare_refl (a : ascii) : Ascii.compare a a = Eq.
Proof. unfold Ascii.compare. apply N.compare_refl. Qed.

Lemma string_compare_trans (s1 s2 s3 : string) :
  String.compare s1 s2 ≠ Gt → String.compare s2 s3 ≠ Gt →
  String.compare s1 s3 ≠ Gt.
Proof.
  revert s2 s3. induction s1 as [| a s1 IH]; intros [| b s2] [| c s3]; simpl;
    try done.
  destruct (Ascii.compare a b) eqn:Eab; [| | done].
  - apply Ascii.compare_eq_iff in Eab as ->.
    destruct (Ascii.compare b c) eqn:Ebc; [apply IH | done | done].
  - destruct (Ascii.compare b c) eqn:Ebc; [| | done].
    + apply Ascii.compare_eq_iff in Ebc as ->. by rewrite Eab.
    + intros _ _. unfold Ascii.compare in *.
      change (N_of_ascii a < N_of_ascii b)%N in Eab.
      change (N_of_ascii b < N_of_ascii c)%N in Ebc.
      assert (N_of_ascii a < N_of_ascii c)%N as H by lia.
      unfold N.lt in H. by rewrite H.
Qed.

Lemma string_leb_trans (s1 s2 s3 : string) :
  String.leb s1 s2 = true → String.leb s2 s3 = true → String.leb s1 s3 = true.
Proof.
  unfold String.leb. intros H1 H2.
  pose proof (string_compare_trans s1 s2 s3) as H.
  destruct (String.compare s1 s2), (String.compare s2 s3),
    (String.compare s1 s3); try done; exfalso; by apply H.
Qed.

Lemma string_leb_total (s1 s2 : string) :
  String.leb s1 s2 = false → String.leb s2 s1 = true.
Proof. intros H. destruct (String.leb_total s1 s2); congruence. Qed.

Lemma by_score_desc_true x y :
  by_score_desc x y = true ↔ (score y <= score x)%R.
Proof. unfold by_score_desc. by destruct (Rle_dec _ _). Qed.

Lemma sort_by_document_sorted rs :
  StronglySorted (λ a b, String.leb (document a) (document b) = true)
    (sort_by by_document rs).
Proof.
  apply (sort_by_sorted by_document); unfold by_document.
  - intros x y. apply string_leb_total.
  - intros x y z. apply string_leb_trans.
Qed.

Lemma StronglySorted_weaken {A : Type} (P Q : A → A → Prop) (l : list A) :
  (∀ a b, P a b → Q a b) → StronglySorted P l → StronglySorted Q l.
Proof.
  intros HPQ. induction 1 as [| x l Hs IH Hx]; constructor; [done |].
  eapply Forall_impl; [exact Hx | apply HPQ].
Qed.

Lemma sort_by_score_sorted rs :
  StronglySorted (λ a b, (score b <= score a)%R) (sort_by by_score_desc rs).
Proof.
  apply (StronglySorted_weaken (λ a b, by_score_desc a b = true)).
  { intros x y. apply by_score_desc_true. }
  apply (sort_by_sorted by_score_desc).
  - intros x y H. apply by_score_desc_true.
    unfold by_score_desc in H. destruct (Rle_dec _ _); [done | lra].
  - intros x y z. rewrite !by_score_desc_true. lra.
Qed.

(** The formatted rows keep the order and count the rank up from [rank]. *)
Lemma format_rows_fmap qn tag rank rs :
  (λ row, (row_document row, row_score row))
    <$> QueryResults.format_rows qn tag rank rs
  = (λ r, (document r, score r)) <$> rs.
Proof.
  revert rank. induction rs as [| r rs IH]; intros rank; simpl; [done |].
  by rewrite IH.
Qed.

Lemma format_rows_rank qn tag rank rs :
  row_rank <$> QueryResults.format_rows qn tag rank rs
  = (λ i, rank + Z.of_nat i) <$> seq 0 (length rs).
Proof.
  revert rank. induction rs as [| r rs IH]; intros rank; simpl; [done |].
  f_equal; [lia |]. rewrite IH. rewrite <- seq_shift, <- list_fmap_compose.
  apply list_fmap_ext. intros _ i _. simpl. lia.
Qed.

Lemma format_rows_sorted (P : string → R → string → R → Prop) qn tag rank rs :
  StronglySorted (λ a b, P (document a) (score a) (document b) (score b)) rs →
  StronglySorted
    (λ a b, P (row_document a) (row_score a) (row_document b) (row_score b))
    (QueryResults.format_rows qn tag rank rs).
Proof.
  intros H. revert rank. induction H as [| r rs Hs IH Hr]; intros rank; simpl.
  - constructor.
  - constructor; [apply IH |].
    clear IH Hs. generalize (rank + 1). induction Hr as [| y l Hy Hl IHl];
      intros k; simpl; constructor; [done | apply IHl].
Qed.

(** ** Query likelihood: the scores *)

(** C1, as amended.  On an index whose total token count is positive, and for
    query terms that all occur in the corpus, [runQLQuery] returns one result
    per document that contains a query term, and its score is the sum, over
    the occurrences of the query terms, of the natural logarithm of
    [(tf + 300 * (ctf / total)) / (dl + 300)]. *)
Theorem QL_scoring (index : Index.t) (q : list string) :
  0 < spec_totalTokenCount index →
  (∀ t, t ∈ q → 0 < Index.getTotalTokenFrequency index t) →
  fst (runQLQuery q index)
  = Ok (scored "QL" (spec_QL_score index q)
          (elements (spec_candidates index q))).
Proof. apply runQLQuery_ok. Qed.

Lemma QL_scoring_witness :
  0 < spec_totalTokenCount example_index
  ∧ (∀ t, t ∈ ["dog"; "cat"] → 0 < Index.getTotalTokenFrequency example_index t)
  ∧ fst (runQLQuery ["dog"; "cat"] example_index)
    = Ok (scored "QL" (spec_QL_score example_index ["dog"; "cat"])
            (elements (spec_candidates example_index ["dog"; "cat"]))).
Proof.
  assert (0 < spec_totalTokenCount example_index) as H1 by (by vm_compute).
  assert (∀ t, t ∈ ["dog"; "cat"]
               → 0 < Index.getTotalTokenFrequency example_index t) as H2.
  { intros t Ht. apply elem_of_cons in Ht as [-> | Ht]; [by vm_compute |].
    apply list_elem_of_singleton in Ht as ->. by vm_compute. }
  exact (conj H1 (conj H2 (QL_scoring example_index ["dog"; "cat"] H1 H2))).
Defined.

(** C1, as stated, fails: the total token count is positive and the query is
    not empty, but the term "dog" is not in the corpus, and scoring the
    candidate "d1" raises [ValueError]. *)
Lemma QL_scoring_absent_term :
  0 < spec_totalTokenCount one_cat_index
  ∧ ["cat"; "dog"] ≠ []
  ∧ elements (spec_candidates one_cat_index ["cat"; "dog"]) = ["d1"]
  ∧ fst (runQLQuery ["cat"; "dog"] one_cat_index) = Raise ValueError.
Proof.
  split; [by vm_compute |]. split; [done |]. split; [by vm_compute |].
  apply (runQLQuery_absent one_cat_index ["cat"; "dog"] "dog").
  - by vm_compute.
  - set_solver.
  - by vm_compute.
  - intros H. apply (f_equal elements) in H. by vm_compute in H.
Qed.

(** The query ["dog"] on the example corpus: the scores worked out. *)
Example QL_example :
  fst (runQLQuery ["dog"] example_index)
  = Ok (QueryResults.mk
          [mkQueryResult "d1" (ln (181 / 303));
           mkQueryResult "d2" (ln (182 / 302))] "QL").
Proof.
  rewrite runQLQuery_ok.
  - replace (elements (spec_candidates example_index ["dog"]))
      with ["d1"; "d2"] by (by vm_compute).
    unfold scored, spec_QL_score, spec_QL_term, spec_totalTokenCount.
    cbn [fmap list_fmap Rsum foldr].
    replace (Index.getTokenFrequencyInDocument example_index "dog" "d1")
      with 1 by (by vm_compute).
    replace (Index.getTokenFrequencyInDocument example_index "dog" "d2")
      with 2 by (by vm_compute).
    replace (Index.getTotalTokenFrequency example_index "dog")
      with 3 by (by vm_compute).
    replace (fst (Index.getTotalTokenCount example_index))
      with 5 by (by vm_compute).
    replace (Index.getDocumentLength example_index "d1")
      with 3 by (by vm_compute).
    replace (Index.getDocumentLength example_index "d2")
      with 2 by (by vm_compute).
    replace (ln ((1 + 300 * (3 / 5)) / (3 + 300)) + 0)%R
      with (ln (181 / 303)) by (rewrite Rplus_0_r; f_equal; lra).
    replace (ln ((2 + 300 * (3 / 5)) / (2 + 300)) + 0)%R
      with (ln (182 / 302)) by (rewrite Rplus_0_r; f_equal; lra).
    done.
  - by vm_compute.
  - intros t Ht. apply list_elem_of_singleton in Ht as ->. by vm_compute.
Qed.

(** ** BM25: the scores *)

(** C2.  On every index that [buildIndex] returns, [runBM25Query] returns one
    result per document that contains a query term; its score is the sum over
    the occurrences of the query terms of the products that the guard lets
    through, and that sum is the sum of all the products
    [term1 * term2 * term3], with [K] a function of the document alone. *)
Theorem BM25_scoring (corpus : list Document) (q : list string) :
  fst (runBM25Query q (buildIndex corpus))
  = Ok (scored "BM25" (spec_BM25_score_guarded (buildIndex corpus) q)
          (elements (spec_candidates (buildIndex corpus) q)))
  ∧ ∀ d, spec_BM25_score_guarded (buildIndex corpus) q d
         = spec_BM25_score (buildIndex corpus) q d.
Proof.
  split.
  - apply runBM25Query_ok, built_buildIndex.
  - intros d. apply spec_BM25_score_guarded_eq.
Qed.

(** The query ["dog"] on the example corpus: the term is in both documents,
    so [term1] is the logarithm of [0.5 / 2.5] and the scores are negative. *)
Example BM25_example :
  fst (runBM25Query ["dog"] example_index)
  = Ok (QueryResults.mk
          [mkQueryResult "d1" (ln (1 / 5) * (2.8 / 3.07));
           mkQueryResult "d2" (ln (1 / 5) * (5.6 / 3.53))] "BM25").
Proof.
  rewrite runBM25Query_ok by apply built_buildIndex.
  replace (elements (spec_candidates example_index ["dog"]))
    with ["d1"; "d2"] by (by vm_compute).
  unfold scored, spec_BM25_score_guarded.
  cbn [fmap list_fmap Rsum foldr].
  rewrite !spec_BM25_term_guarded_eq.
  unfold spec_BM25_term, spec_term1, spec_term2, spec_term3, spec_K,
    spec_averageDocumentLength, spec_totalTokenCount.
  replace (Index.getTokenFrequencyInDocument example_index "dog" "d1")
    with 1 by (by vm_compute).
  replace (Index.getTokenFrequencyInDocument example_index "dog" "d2")
    with 2 by (by vm_compute).
  replace (Index.getTokenDocumentCount example_index "dog")
    with 2 by (by vm_compute).
  replace (Index.getNumberOfDocuments example_index)
    with 2 by (by vm_compute).
  replace (fst (Index.getTotalTokenCount example_index))
    with 5 by (by vm_compute).
  replace (Index.getDocumentLength example_index "d1")
    with 3 by (by vm_compute).
  replace (Index.getDocumentLength example_index "d2")
    with 2 by (by vm_compute).
  replace ((2 - 2 + 0.5) / (2 + 0.5))%R with (1 / 5)%R by lra.
  do 4 f_equal.
  - lra.
  - do 2 f_equal. lra.
Qed.

(** ** AND *)

(** C3.  For a non-empty query, the results of [runANDQuery] are, without
    repetition, the documents that contain every query term, each with
    score 1; when some query term is not in the index there is no result. *)
Theorem AND_model (index : Index.t) (q : list string) :
  q ≠ [] →
  runANDQuery index q
  = scored "AND" (λ _, 1%R) (result_documents (runANDQuery index q))
  ∧ NoDup (result_documents (runANDQuery index q))
  ∧ (∀ d, d ∈ result_documents (runANDQuery index q)
          ↔ spec_AND_member index q d)
  ∧ (∀ t, t ∈ q → Index.index index !! t = None →
          QueryResults.results (runANDQuery index q) = []).
Proof.
  intros Hq. rewrite runANDQuery_eq, result_documents_scored.
  split; [done |]. split; [apply NoDup_elements |]. split.
  - intros d. rewrite elem_of_elements. by apply elem_of_intersect_documents.
  - intros t Ht Hnone.
    assert (intersect_documents index q = ∅) as ->.
    { apply set_eq. intros d. rewrite (elem_of_intersect_documents _ _ _ Hq).
      split; [| intros H; by apply not_elem_of_empty in H].
      intros H. specialize (H t Ht).
      unfold Index.getDocumentIDsForToken in H. by rewrite Hnone in H. }
    by rewrite elements_empty.
Qed.

Lemma AND_model_witness :
  ["cat"; "dog"] ≠ []
  ∧ runANDQuery example_index ["cat"; "dog"]
    = scored "AND" (λ _, 1%R)
        (result_documents (runANDQuery example_index ["cat"; "dog"]))
  ∧ NoDup (result_documents (runANDQuery example_index ["cat"; "dog"]))
  ∧ (∀ d, d ∈ result_documents (runANDQuery example_index ["cat"; "dog"])
          ↔ spec_AND_member example_index ["cat"; "dog"] d)
  ∧ (∀ t, t ∈ ["cat"; "dog"] → Index.index example_index !! t = None →
          QueryResults.results (runANDQuery example_index ["cat"; "dog"]) = []).
Proof.
  assert (["cat"; "dog"] ≠ []) as H by done.
  exact (conj H (AND_model example_index ["cat"; "dog"] H)).
Defined.

(** The AND and OR queries of the specification's example. *)
Example AND_example :
  runANDQuery example_index ["cat"; "dog"]
  = QueryResults.mk [mkQueryResult "d1" 1] "AND".
Proof. by vm_compute. Qed.

Example OR_example :
  runORQuery example_index ["cat"; "dog"]
  = QueryResults.mk [mkQueryResult "d1" 1; mkQueryResult "d2" 1] "OR".
Proof. by vm_compute. Qed.

(** ** The candidate documents of OR, QL and BM25 *)

Lemma elem_of_spec_candidates index q d :
  d ∈ spec_candidates index q
  ↔ ∃ t, t ∈ q ∧ d ∈ Index.getDocumentIDsForToken index t.
Proof. rewrite <- union_documents_spec. apply elem_of_union_documents. Qed.

Lemma runQLQuery_built_ok index q :
  built index →
  (∀ t, t ∈ q → 0 < Index.getTotalTokenFrequency index t) →
  fst (runQLQuery q index)
  = Ok (scored "QL" (spec_QL_score index q)
          (elements (spec_candidates index q))).
Proof.
  intros Hb Hq. destruct q as [| t q].
  - by rewrite runQLQuery_no_candidates.
  - apply runQLQuery_ok; [| done].
    pose proof (Hq t ltac:(left)).
    pose proof (getTotalTokenFrequency_le_total index t Hb). lia.
Qed.

(** What [runQLQuery] returns on an index that [buildIndex] returned. *)
Lemma runQLQuery_built index q :
  built index →
  fst (runQLQuery q index)
  = if decide (spec_candidates index q = ∅) then Ok (QueryResults.init "QL")
    else if decide (Forall (λ t, 0 < Index.getTotalTokenFrequency index t) q)
    then Ok (scored "QL" (spec_QL_score index q)
               (elements (spec_candidates index q)))
    else Raise ValueError.
Proof.
  intros Hb. destruct (decide _) as [He | Hne].
  - by apply runQLQuery_no_candidates.
  - assert (0 < fst (Index.getTotalTokenCount index)) as Htot.
    { apply set_choose_L in Hne as [d Hd].
      rewrite <- union_documents_spec in Hd.
      destruct (candidate_total index q d Hb Hd). lia. }
    destruct (decide _) as [Hall | Hnot].
    + apply runQLQuery_ok; [done |]. by apply Forall_forall.
    + apply not_Forall_Exists in Hnot; [| apply _].
      apply Exists_exists in Hnot as (t & Ht & Hbad). simpl in Hbad.
      apply (runQLQuery_absent index q t); try done.
      pose proof (getTotalTokenFrequency_nonneg index t). lia.
Qed.

(** Where the candidate documents agree.  On every index that [buildIndex]
    returns: the documents of [runORQuery] are those that contain at least
    one query term, each with score 1; [runBM25Query] returns results for
    the same documents; so does [runQLQuery] when no document contains a
    query term or every query term occurs in the corpus, and in every other
    case it raises [ValueError]; and every document of [runANDQuery] is a
    document of [runORQuery]. *)
Theorem candidate_sets (corpus : list Document) (q : list string) :
  let index := buildIndex corpus in
  let candidates := elements (spec_candidates index q) in
  (∀ d, d ∈ candidates
        ↔ ∃ t, t ∈ q ∧ d ∈ Index.getDocumentIDsForToken index t)
  ∧ runORQuery index q = scored "OR" (λ _, 1%R) candidates
  ∧ (∃ r, fst (runBM25Query q index) = Ok r
          ∧ result_documents r = candidates)
  ∧ (candidates = []
     ∨ (∀ t, t ∈ q → 0 < Index.getTotalTokenFrequency index t) →
     ∃ r, fst (runQLQuery q index) = Ok r ∧ result_documents r = candidates)
  ∧ (candidates ≠ [] →
     ∀ t, t ∈ q → Index.getTotalTokenFrequency index t = 0 →
     fst (runQLQuery q index) = Raise ValueError)
  ∧ (∀ d, d ∈ result_documents (runANDQuery index q)
          → d ∈ result_documents (runORQuery index q)).
Proof.
  intros index candidates.
  pose proof (built_buildIndex corpus) as Hb. fold index in Hb.
  split; [| split; [| split; [| split; [| split]]]].
  - intros d. unfold candidates. rewrite elem_of_elements.
    apply elem_of_spec_candidates.
  - apply runORQuery_eq.
  - eexists. split; [by apply runBM25Query_ok |].
    apply result_documents_scored.
  - intros [He | Hq].
    + apply elements_empty_inv, leibniz_equiv in He.
      exists (QueryResults.init "QL").
      split; [by apply runQLQuery_no_candidates |].
      unfold candidates. by rewrite He, elements_empty.
    + eexists. split; [by apply runQLQuery_built_ok |].
      apply result_documents_scored.
  - intros Hne t Ht H0. rewrite runQLQuery_built by done.
    rewrite decide_False.
    2: { intros He. apply Hne. unfold candidates.
         by rewrite He, elements_empty. }
    rewrite decide_False; [done |].
    intros Hall. rewrite Forall_forall in Hall.
    specialize (Hall t Ht). simpl in Hall. lia.
  - intros d. rewrite runANDQuery_eq, runORQuery_eq.
    rewrite !result_documents_scored, !elem_of_elements.
    destruct q as [| t q].
    + rewrite intersect_documents_nil. intros H.
      by apply not_elem_of_empty in H.
    + rewrite elem_of_intersect_documents by done. intros H.
      apply elem_of_spec_candidates. exists t. split; [left |].
      apply H. left.
Qed.

(** C4.  On the index of the corpus with the one document "d1" of text
    "cat", and for the query cat dog, [runORQuery] and [runBM25Query] return
    the document "d1", the one document that contains a query term, and
    [runQLQuery] raises [ValueError] and returns no document. *)
Lemma candidate_sets_QL_raises :
  result_documents (runORQuery one_cat_index ["cat"; "dog"]) = ["d1"]
  ∧ (∃ r, fst (runBM25Query ["cat"; "dog"] one_cat_index) = Ok r
          ∧ result_documents r = ["d1"])
  ∧ fst (runQLQuery ["cat"; "dog"] one_cat_index) = Raise ValueError.
Proof.
  split; [by vm_compute |]. split.
  - eexists. split; [apply runBM25Query_ok, built_buildIndex |].
    rewrite result_documents_scored. by vm_compute.
  - apply (runQLQuery_absent one_cat_index ["cat"; "dog"] "dog").
    + by vm_compute.
    + set_solver.
    + by vm_compute.
    + intros H. apply (f_equal elements) in H. by vm_compute in H.
Qed.

(** ** Ranking *)

(** C5.  [getFinalResults] returns the results in another order, one row per
    result, with the ranks 1, 2, ... in that order; for the methods AND and OR
    the document IDs ascend, for QL and BM25 the scores descend. *)
Theorem ranking (rs : list QueryResult) (queryName runTag : string) :
  let rows method :=
    fst (QueryResults.getFinalResults (QueryResults.mk rs method)
           queryName runTag) in
  (∀ method,
     (λ row, (row_document row, row_score row)) <$> rows method
       ≡ₚ (λ r, (document r, score r)) <$> rs
     ∧ row_rank <$> rows method = (λ i, 1 + Z.of_nat i) <$> seq 0 (length rs))
  ∧ StronglySorted
      (λ a b, String.leb (row_document a) (row_document b) = true) (rows "AND")
  ∧ StronglySorted
      (λ a b, String.leb (row_document a) (row_document b) = true) (rows "OR")
  ∧ StronglySorted (λ a b, (row_score b <= row_score a)%R) (rows "QL")
  ∧ StronglySorted (λ a b, (row_score b <= row_score a)%R) (rows "BM25").
Proof.
  intros rows. split; [| split; [| split; [| split]]].
  - intros method. unfold rows, QueryResults.getFinalResults. simpl.
    rewrite format_rows_fmap, format_rows_rank. split.
    + apply fmap_Permutation. destruct (decide _); apply sort_by_perm.
    + f_equal. f_equal. apply Permutation_length.
      destruct (decide _); apply sort_by_perm.
  - unfold rows, QueryResults.getFinalResults. simpl.
    apply (format_rows_sorted (λ d1 _ d2 _, String.leb d1 d2 = true)).
    apply sort_by_document_sorted.
  - unfold rows, QueryResults.getFinalResults. simpl.
    apply (format_rows_sorted (λ d1 _ d2 _, String.leb d1 d2 = true)).
    apply sort_by_document_sorted.
  - unfold rows, QueryResults.getFinalResults. simpl.
    apply (format_rows_sorted (λ _ s1 _ s2, (s2 <= s1)%R)).
    apply sort_by_score_sorted.
  - unfold rows, QueryResults.getFinalResults. simpl.
    apply (format_rows_sorted (λ _ s1 _ s2, (s2 <= s1)%R)).
    apply sort_by_score_sorted.
Qed.

(** ** The empty corpus *)

Lemma union_documents_no_postings index q :
  Index.index index = ∅ → union_documents index q = ∅.
Proof.
  intros H. apply set_eq. intros d. rewrite elem_of_union_documents.
  split; [| intros Hd; by apply not_elem_of_empty in Hd].
  intros (t & _ & Hd). unfold Index.getDocumentIDsForToken in Hd.
  by rewrite H, lookup_empty in Hd.
Qed.

(** C6, as amended.  On the index of the empty corpus, [runQLQuery] and
    [runBM25Query] return an empty result collection for every query and
    leave the index as it is: there is no candidate document, and no division
    is evaluated.  [getAverageDocumentLength] itself raises
    [ZeroDivisionError] on that index. *)
Theorem empty_corpus (q : list string) :
  runQLQuery q (buildIndex []) = (Ok (QueryResults.init "QL"), buildIndex [])
  ∧ runBM25Query q (buildIndex [])
    = (Ok (QueryResults.init "BM25"), buildIndex [])
  ∧ fst (Index.getAverageDocumentLength (buildIndex []))
    = Raise ZeroDivisionError.
Proof.
  split; [| split].
  - unfold runQLQuery, runQLQuery_with, bind, gets.
    rewrite union_documents_no_postings by done. by rewrite elements_empty.
  - unfold runBM25Query, runBM25Query_with, bind, gets.
    rewrite union_documents_no_postings by done. by rewrite elements_empty.
  - rewrite getAverageDocumentLength_fst. apply pydiv_zero.
Qed.

(** C6, as stated, fails: on the index of the empty corpus both models
    return, and raise nothing. *)
Lemma empty_corpus_no_error :
  Index.getNumberOfDocuments (buildIndex []) = 0
  ∧ fst (runQLQuery ["cat"] (buildIndex [])) = Ok (QueryResults.init "QL")
  ∧ fst (runBM25Query ["cat"] (buildIndex []))
    = Ok (QueryResults.init "BM25").
Proof.
  split; [done |]. split.
  - apply runQLQuery_no_candidates. by vm_compute.
  - rewrite runBM25Query_fst.
    replace (spec_candidates (buildIndex []) ["cat"]) with (∅ : gset string)
      by (by vm_compute).
    by rewrite elements_empty.
Qed.

(** ** Token counts *)

(** C9.  After adding documents with pairwise distinct IDs to a new index,
    [getTotalTokenCount] returns the sum of [getDocumentLength] over the
    added documents. *)
Theorem token_count_consistency (corpus : list Document) :
  NoDup (storyID <$> corpus) →
  fst (Index.getTotalTokenCount (buildIndex corpus))
  = foldr Z.add 0
      ((λ d, Index.getDocumentLength (buildIndex corpus) (storyID d))
         <$> corpus).
Proof.
  intros Hnd. rewrite (built_total _ (built_buildIndex corpus)).
  unfold buildIndex at 1. rewrite index_total_build, index_total_init.
  rewrite Z.add_0_l. f_equal. apply list_fmap_ext. intros i d Hd.
  unfold Index.getDocumentLength, buildIndex.
  rewrite documents_build_lookup; [done | done |].
  by apply list_elem_of_lookup_2 with i.
Qed.

Lemma token_count_consistency_witness :
  NoDup (storyID <$> example_corpus)
  ∧ fst (Index.getTotalTokenCount (buildIndex example_corpus))
    = foldr Z.add 0
        ((λ d, Index.getDocumentLength (buildIndex example_corpus) (storyID d))
           <$> example_corpus).
Proof.
  assert (NoDup (storyID <$> example_corpus)) as H.
  { apply NoDup_cons. split; [| apply NoDup_singleton].
    intros Hin. by apply list_elem_of_singleton in Hin. }
  exact (conj H (token_count_consistency example_corpus H)).
Defined.

(** The accessors on the example corpus of the specification. *)
Example accessors_example :
  Index.getTokenDocumentCount example_index "cat" = 1
  ∧ Index.getTokenDocumentCount example_index "dog" = 2
  ∧ Index.getDocumentLength example_index "d1" = 3
  ∧ fst (Index.getTotalTokenCount example_index) = 5
  ∧ Index.getNumberOfDocuments example_index = 2
  ∧ Index.getPostings example_index "cat" = {["d1" := [0; 2]]}.
Proof. repeat split; by vm_compute. Qed.

(** ** The empty query *)

(** C10.  On every index, each of the four models returns an empty result
    collection for the empty list of query terms. *)
Theorem empty_query (index : Index.t) :
  runANDQuery index [] = QueryResults.init "AND"
  ∧ runORQuery index [] = QueryResults.init "OR"
  ∧ runQLQuery [] index = (Ok (QueryResults.init "QL"), index)
  ∧ runBM25Query [] index = (Ok (QueryResults.init "BM25"), index).
Proof.
  split; [| split; [| split]].
  - unfold runANDQuery. rewrite intersect_documents_nil.
    by rewrite elements_empty.
  - unfold runORQuery, union_documents. simpl. by rewrite elements_empty.
  - unfold runQLQuery, runQLQuery_with, bind, gets, union_documents. simpl.
    by rewrite elements_empty.
  - unfold runBM25Query, runBM25Query_with, bind, gets, union_documents.
    simpl. by rewrite elements_empty.
Qed.

(** ** Unrecognised query tags *)

Lemma dispatch_length results query s results' s' :
  dispatch results query s = (Ok results', s') →
  (length results' ≤ S (length results))%nat
  ∧ (¬ recognised (type query) → results' = results).
Proof.
  unfold dispatch, recognised.
  destruct (decide (upper (type query) = "AND")) as [E1 | E1].
  { unfold bind, gets, ret. intros [= <- _].
    rewrite length_app. simpl. split; [lia | tauto]. }
  destruct (decide (upper (type query) = "OR")) as [E2 | E2].
  { unfold bind, gets, ret. intros [= <- _].
    rewrite length_app. simpl. split; [lia | tauto]. }
  destruct (decide (upper (type query) = "QL")) as [E3 | E3].
  { unfold bind, ret.
    destruct (runQLQuery (queryWords query) s) as [[r | e] s1]; [| done].
    intros [= <- _]. rewrite length_app. simpl. split; [lia | tauto]. }
  destruct (decide (upper (type query) = "BM25")) as [E4 | E4].
  { unfold bind, ret.
    destruct (runBM25Query (queryWords query) s) as [[r | e] s1]; [| done].
    intros [= <- _]. rewrite length_app. simpl. split; [lia | tauto]. }
  unfold ret. intros [= <- _]. split; [lia | done].
Qed.

Lemma foldM_dispatch_length queries results s results' s' :
  foldM dispatch results queries s = (Ok results', s') →
  (length results' ≤ length results + length queries)%nat
  ∧ (Exists (λ query, ¬ recognised (type query)) queries →
     (length results' < length results + length queries)%nat).
Proof.
  revert results s. induction queries as [| query queries IH];
    intros results s; simpl.
  - unfold ret. intros [= <- _]. split; [lia |]. by intros H%Exists_nil.
  - unfold bind.
    destruct (dispatch results query s) as [[results1 | e] s1] eqn:E; [| done].
    intros H. destruct (IH _ _ H) as [Hle Hlt].
    destruct (dispatch_length _ _ _ _ _ E) as [Hle1 Hsame].
    split; [lia |]. intros [Hq | Hq]%Exists_cons.
    + rewrite (Hsame Hq) in Hle. lia.
    + specialize (Hlt Hq). lia.
Qed.

Lemma write_results_short results pending i out :
  (i ≤ length results < i + length pending)%nat →
  raised (write_results results i pending out) = Some IndexError.
Proof.
  revert i out. induction pending as [| query pending IH]; intros i out H;
    simpl in *; [lia |].
  destruct (results !! i) as [r |] eqn:E; [| done].
  apply IH. apply lookup_lt_Some in E. lia.
Qed.

(** A query file with an unrecognised tag, whose queries all run, ends in
    [IndexError]: there are fewer result collections than queries. *)
Lemma unrecognised_tag_raises lines index queries results index' :
  parse_queries lines = Ok queries →
  foldM dispatch [] queries index = (Ok results, index') →
  Exists (λ query, ¬ recognised (type query)) queries →
  raised (fst (runQueries lines index)) = Some IndexError.
Proof.
  intros Hp Hd Hex. unfold runQueries. rewrite Hp, Hd. simpl.
  apply write_results_short.
  destruct (foldM_dispatch_length _ _ _ _ _ Hd) as [_ Hlt].
  specialize (Hlt Hex). simpl in Hlt. lia.
Qed.

(** C7, on a query file with the unknown tag FOO before an OR query.  The
    results of the OR query are written under the name of the FOO query, and
    the run ends in [IndexError]; without the FOO line the same OR query
    writes its row under its own name and the run ends normally. *)
Theorem unrecognised_tag_example :
  parse_queries example_query_lines
  = Ok [mkQuery "FOO" "q1" ["cat"]; mkQuery "OR" "q2" ["cat"]]
  ∧ fst (runQueries example_query_lines one_cat_index)
    = mkOutcome [mkRow "q1" "d1" 1 1 "cgibbonsOR"] (Some IndexError)
  ∧ fst (runQueries [query_line ["OR"; "q2"; "cat"]] one_cat_index)
    = mkOutcome [mkRow "q2" "d1" 1 1 "cgibbonsOR"] None.
Proof. repeat split; by vm_compute. Qed.

(** ** Candidate documents and the terms of the query *)

Lemma spec_candidates_perm index q q' :
  q ≡ₚ q' → spec_candidates index q = spec_candidates index q'.
Proof.
  intros Hp. apply set_eq. intros d. rewrite !elem_of_spec_candidates.
  split; intros (t & Ht & Hd); exists t; split; try done.
  - by rewrite <- Hp.
  - by rewrite Hp.
Qed.

Lemma scored_ext method (f g : string → R) docs :
  (∀ d, f d = g d) → scored method f docs = scored method g docs.
Proof.
  intros H. unfold scored. f_equal. apply list_fmap_ext. intros _ d _.
  by rewrite H.
Qed.

Lemma spec_candidates_same_terms index q q' :
  (∀ t, t ∈ q ↔ t ∈ q') → spec_candidates index q = spec_candidates index q'.
Proof.
  intros H. apply set_eq. intros d. rewrite !elem_of_spec_candidates.
  split; intros (t & Ht & Hd); exists t; split; try done; by apply H.
Qed.

(** ** The ranked models over any arithmetic: results *)

Lemma foldR_fmap {A B C : Type} (g : C → B → result C) (f : A → B) acc l :
  foldR (λ s x, g s (f x)) acc l = foldR g acc (f <$> l).
Proof.
  revert acc. induction l as [| x l IH]; intros acc; [done |].
  rewrite fmap_cons. cbn [foldR]. destruct (g acc (f x)); simpl; [apply IH | done].
Qed.

Lemma foldR_app {A B : Type} (f : B → A → result B) acc l l' :
  foldR f acc (l ++ l') = rbind (foldR f acc l) (λ acc', foldR f acc' l').
Proof.
  revert acc. induction l as [| x l IH]; intros acc; [done |].
  cbn [foldR app]. destruct (f acc x); simpl; [apply IH | done].
Qed.

Lemma foldR_sim {A B C : Type} (f : B → A → result B) (g : C → A → result C)
    (φ : B → C) :
  (∀ b a, g (φ b) a = rbind (f b a) (λ b', Ok (φ b'))) →
  ∀ l b, foldR g (φ b) l = rbind (foldR f b l) (λ b', Ok (φ b')).
Proof.
  intros H l. induction l as [| x l IH]; intros b; [done |].
  cbn [foldR]. rewrite H. destruct (f b x); simpl; [apply IH | done].
Qed.

Lemma getAverageDocumentLength_in_run (A : Arith) (s index : Index.t) :
  same_data s index →
  ∃ s', getAverageDocumentLength_in A s = (average_in A index, s')
        ∧ same_data s' index.
Proof.
  intros H. exists (snd (Index.getTotalTokenCount s)).
  pose proof (getTotalTokenCount_same_data _ _ H) as H1.
  split; [| done].
  destruct H as (_ & _ & _ & Ht).
  unfold getAverageDocumentLength_in, average_in.
  destruct (Index.getTotalTokenCount s) as [n s1]. simpl in *.
  by rewrite Ht, (same_data_N _ _ H1).
Qed.

Lemma ql_step_in_run (A : Arith) u index d score w s :
  same_data s index →
  ∃ s', ql_step_in A u d score w s
        = (rbind (ql_contribution A u index d w) (λ o, Ok (plus A score o)),
           s')
        ∧ same_data s' index.
Proof.
  intros Hs. destruct (getTotalTokenCountM_run _ _ Hs) as (s1 & E1 & Hs1).
  exists s1. split; [| done].
  unfold ql_step_in, ql_contribution, bind, gets, lift, ret. rewrite E1.
  rewrite (same_data_tf _ _ _ _ Hs), (same_data_ctf _ _ _ Hs),
    (same_data_dl _ _ _ Hs1).
  destruct (n_div A _ _) as [ratio |]; simpl; [| done].
  destruct (n_div A _ _) as [quotient |]; simpl; [| done].
  by destruct (n_log A _).
Qed.

Lemma runQLQuery_in_with_run (A : Arith) u q index s :
  same_data s index →
  ∃ s', runQLQuery_in_with A u q s
        = (collect (λ d, accumulate A (ql_contribution A u index d <$> q))
             (elements (spec_candidates index q)), s')
        ∧ same_data s' index.
Proof.
  intros Hs. unfold runQLQuery_in_with, bind, gets at 1.
  rewrite (same_data_union _ _ _ Hs), union_documents_spec.
  apply foldM_run; [| done]. clear s Hs. intros results d s Hs.
  destruct (foldM_run index (ql_step_in A u d) _
              (λ acc x s, ql_step_in_run A u index d acc x s) q
              (n_of_int A 0) s Hs) as (s1 & E1 & Hs1).
  exists s1. split; [| done].
  unfold bind, accumulate, accumulate_from. rewrite E1, <- foldR_fmap.
  by destruct (foldR _ _ _).
Qed.

Lemma debug_print_in_run (A : Arith) index d w s :
  same_data s index →
  ∃ s', debug_print_in A d w s
        = (if decide (w = "united" ∧ d = "24323-art19")
           then rbind (average_in A index) (λ _, Ok tt) else Ok tt, s')
        ∧ same_data s' index.
Proof.
  intros Hs. unfold debug_print_in.
  destruct (decide _); [| by exists s].
  destruct (getAverageDocumentLength_in_run A _ _ Hs) as (s1 & E1 & Hs1).
  exists s1. split; [| done].
  unfold bind, gets, ret. rewrite E1.
  by destruct (average_in A index).
Qed.

Lemma bm25_step_in_run (A : Arith) k1 k2 bigK index d score w s :
  same_data s index →
  ∃ s', bm25_step_in A k1 k2 bigK d score w s
        = (rbind (bm25_contribution A k1 k2 index bigK d w)
             (λ o, Ok (plus A score o)), s')
        ∧ same_data s' index.
Proof.
  intros Hs. destruct (debug_print_in_run A index d w s Hs) as (s1 & E1 & Hs1).
  exists s1. split; [| done].
  unfold bm25_step_in, bm25_contribution, bind, gets, lift, ret. rewrite E1.
  rewrite (same_data_tf _ _ _ _ Hs), (same_data_df _ _ _ Hs),
    (same_data_N _ _ Hs).
  destruct (if decide _ then _ else _); simpl; [| done].
  destruct (n_div A _ _) as [odds |]; simpl; [| done].
  destruct (n_log A _) as [term1 |]; simpl; [| done].
  destruct (n_div A _ _) as [term2 |]; simpl; [| done].
  destruct (n_div A _ _) as [term3 |]; simpl; [| done].
  by destruct (_ && _).
Qed.

Lemma bm25_bigK_in_run (A : Arith) k1 b index d s :
  same_data s index →
  ∃ s', bm25_bigK_in A k1 b d s = (bigK_of A k1 b index d, s')
        ∧ same_data s' index.
Proof.
  intros Hs.
  destruct (getAverageDocumentLength_in_run A _ _ Hs) as (s1 & E1 & Hs1).
  exists s1. split; [| done].
  unfold bm25_bigK_in, bigK_of, bind, gets, lift, ret. rewrite E1.
  rewrite (same_data_dl _ _ _ Hs).
  destruct (average_in A index); simpl; [| done].
  by destruct (n_div A _ _).
Qed.

Lemma runBM25Query_in_with_run (A : Arith) k1 k2 b q index s :
  same_data s index →
  ∃ s', runBM25Query_in_with A k1 k2 b q s
        = (collect
             (λ d, rbind (bigK_of A k1 b index d) (λ bigK,
                   accumulate A
                     (bm25_contribution A k1 k2 index bigK d <$> q)))
             (elements (spec_candidates index q)), s')
        ∧ same_data s' index.
Proof.
  intros Hs. unfold runBM25Query_in_with, bind, gets at 1.
  rewrite (same_data_union _ _ _ Hs), union_documents_spec.
  apply foldM_run; [| done]. clear s Hs. intros results d s Hs.
  destruct (bm25_bigK_in_run A k1 b index d s Hs) as (s1 & E1 & Hs1).
  rewrite E1.
  destruct (bigK_of A k1 b index d) as [bigK | e]; simpl; [| by exists s1].
  destruct (foldM_run index (bm25_step_in A k1 k2 bigK d) _
              (λ acc x s, bm25_step_in_run A k1 k2 bigK index d acc x s) q
              (n_of_int A 0) s1 Hs1) as (s2 & E2 & Hs2).
  exists s2. split; [| done].
  unfold accumulate, accumulate_from. rewrite E2, <- foldR_fmap.
  by destruct (foldR _ _ _).
Qed.

Lemma runQLQuery_in_fst (A : Arith) q index :
  fst (runQLQuery_in A q index)
  = collect (QL_score_in A index q) (elements (spec_candidates index q)).
Proof.
  destruct (runQLQuery_in_with_run A 300 q index index (same_data_refl index))
    as (s' & E & _).
  unfold runQLQuery_in. by rewrite E.
Qed.

Lemma runBM25Query_in_fst (A : Arith) q index :
  fst (runBM25Query_in A q index)
  = collect (BM25_score_in A index q) (elements (spec_candidates index q)).
Proof.
  destruct (runBM25Query_in_with_run A (n_1_8 A) 5 (n_0_75 A) q index index
              (same_data_refl index)) as (s' & E & _).
  unfold runBM25Query_in. by rewrite E.
Qed.

(** *** Sums of contributions *)

Lemma accumulate_from_cons (A : Arith) score c cs :
  accumulate_from A score (c :: cs)
  = rbind c (λ o, accumulate_from A (plus A score o) cs).
Proof. unfold accumulate_from. cbn [foldR]. by destruct c. Qed.

Lemma accumulate_from_snoc (A : Arith) score cs c :
  accumulate_from A score (cs ++ [c])
  = rbind (accumulate_from A score cs) (λ s,
    rbind c (λ o, Ok (plus A s o))).
Proof.
  unfold accumulate_from. rewrite foldR_app.
  destruct (foldR _ _ cs); simpl; [| done]. by destruct c.
Qed.

(** In an arithmetic whose addition is associative and commutative, the
    order of the contributions does not change a sum that has a value. *)
Lemma accumulate_from_perm (A : Arith) cs cs' :
  (∀ x y z, n_add A x (n_add A y z) = n_add A (n_add A x y) z) →
  (∀ x y, n_add A x y = n_add A y x) →
  cs ≡ₚ cs' →
  ∀ score s,
    accumulate_from A score cs = Ok s → accumulate_from A score cs' = Ok s.
Proof.
  intros Hassoc Hcomm.
  induction 1 as [| c cs cs' _ IH | c1 c2 cs | cs cs' cs'' _ IH1 _ IH2];
    intros score s.
  - done.
  - rewrite !accumulate_from_cons. destruct c as [o | e]; simpl; [| done].
    apply IH.
  - rewrite !accumulate_from_cons.
    destruct c1 as [o1 | e1], c2 as [o2 | e2]; simpl; try done.
    rewrite !accumulate_from_cons. simpl.
    replace (plus A (plus A score o1) o2) with (plus A (plus A score o2) o1);
      [done |].
    destruct o1 as [v1 |], o2 as [v2 |]; simpl; try done.
    by rewrite <- !Hassoc, (Hcomm v1 v2).
  - intros H. by apply IH2, IH1.
Qed.

(** *** Exact arithmetic is the reading of the first part *)

Lemma ql_term_exact index d score w :
  ql_term 300 index d score w
  = rbind (ql_contribution exact 300 index d w) (λ o, Ok (plus exact score o)).
Proof.
  unfold ql_term, ql_contribution. simpl.
  destruct (pydiv _ _) as [ratio |]; simpl; [| done].
  rewrite plus_IZR.
  destruct (pydiv _ _) as [quotient |]; simpl; [| done].
  by destruct (pylog _).
Qed.

Lemma foldR_ext {A B : Type} (f g : B → A → result B) acc l :
  (∀ b a, f b a = g b a) → foldR f acc l = foldR g acc l.
Proof.
  intros H. revert acc. induction l as [| x l IH]; intros acc; [done |].
  cbn [foldR]. rewrite H. destruct (g acc x); simpl; [apply IH | done].
Qed.

Lemma runQLQuery_exact q index :
  fst (runQLQuery_in exact q index)
  = rbind (fst (runQLQuery q index)) (λ r, Ok (pairs_of r)).
Proof.
  rewrite runQLQuery_in_fst.
  destruct (runQLQuery_with_run 300 q index index (same_data_refl index))
    as (s' & E & _).
  unfold runQLQuery. rewrite E. simpl. rewrite union_documents_spec.
  unfold collect.
  refine (foldR_sim (ql_document 300 index q) _ pairs_of _ _
            (QueryResults.init "QL")).
  intros r d. unfold ql_document, QL_score_in, accumulate, accumulate_from.
  rewrite <- foldR_fmap.
  rewrite (foldR_ext (ql_term 300 index d) _ _ _ (ql_term_exact index d)).
  simpl.
  match goal with
  | |- rbind ?a _ = rbind (rbind ?b _) _ => change b with a; destruct a
  end; simpl; [| done].
  unfold pairs_of, QueryResults.add. simpl. by rewrite fmap_app.
Qed.

Lemma average_in_exact index :
  average_in exact index = fst (Index.getAverageDocumentLength index).
Proof. by rewrite getAverageDocumentLength_fst. Qed.

Lemma bm25_term_exact index bigK d score w :
  bm25_term 1.8 5 index bigK d score w
  = rbind (bm25_contribution exact 1.8%R 5 index bigK d w)
      (λ o, Ok (plus exact score o)).
Proof.
  unfold bm25_term, bm25_contribution, debug_print_pure.
  rewrite average_in_exact. simpl.
  destruct (if decide _ then _ else _); simpl; [| done].
  destruct (pydiv _ _) as [odds |]; simpl; [| done].
  destruct (pylog _) as [term1 |]; simpl; [| done].
  destruct (pydiv _ _) as [term2 |]; simpl; [| done].
  replace ((5 + 1) * 1)%R with 6%R by lra.
  replace (5 + 1)%R with 6%R by lra.
  destruct (pydiv _ _) as [term3 |]; simpl; [| done].
  by destruct (_ && _).
Qed.

Lemma runBM25Query_exact q index :
  fst (runBM25Query_in exact q index)
  = rbind (fst (runBM25Query q index)) (λ r, Ok (pairs_of r)).
Proof.
  rewrite runBM25Query_in_fst.
  destruct (runBM25Query_with_run 1.8 5 0.75 q index index
              (same_data_refl index)) as (s' & E & _).
  unfold runBM25Query. rewrite E. simpl. rewrite union_documents_spec.
  unfold collect.
  refine (foldR_sim (bm25_document 1.8 5 0.75 index q) _ pairs_of _ _
            (QueryResults.init "BM25")).
  intros r d.
  unfold bm25_document, BM25_score_in, bm25_bigK_pure, bigK_of.
  rewrite average_in_exact. simpl.
  destruct (fst (Index.getAverageDocumentLength index)) as [avg |]; simpl;
    [| done].
  destruct (pydiv _ _) as [ratio |]; simpl; [| done].
  unfold accumulate, accumulate_from. rewrite <- foldR_fmap.
  rewrite (foldR_ext (bm25_term 1.8 5 index _ d) _ _ _
             (bm25_term_exact index _ d)).
  simpl.
  match goal with
  | |- rbind ?a _ = rbind (rbind ?b _) _ => change b with a; destruct a
  end; simpl; [| done].
  unfold pairs_of, QueryResults.add. simpl. by rewrite fmap_app.
Qed.

(** *** Order and repetition of query terms *)

Lemma accumulate_perm_iff (A : Arith) cs cs' s :
  (∀ x y z, n_add A x (n_add A y z) = n_add A (n_add A x y) z) →
  (∀ x y, n_add A x y = n_add A y x) →
  cs ≡ₚ cs' →
  accumulate A cs = Ok s ↔ accumulate A cs' = Ok s.
Proof.
  intros Hassoc Hcomm Hp. unfold accumulate.
  split; apply accumulate_from_perm; done.
Qed.

Lemma BM25_score_in_contributions (A : Arith) index q d :
  BM25_score_in A index q d
  = rbind (bigK_of A (n_1_8 A) (n_0_75 A) index d) (λ _,
    accumulate A (BM25_contribution_in A index d <$> q)).
Proof.
  unfold BM25_score_in, BM25_contribution_in.
  by destruct (bigK_of _ _ _ _ _) as [bigK | e].
Qed.

(** C8, as amended.  In every arithmetic, on every index and for every
    query: [runQLQuery] and [runBM25Query] give every document that contains
    a query term its score, which is the contributions of the query terms,
    one for each occurrence, added one after the other in the order of the
    query.  A permutation of the query has the same candidate documents and,
    for each of them, the same contributions in another order; where the
    addition of the arithmetic is associative and commutative, as on exact
    numbers, a score that has a value is the same for both.  One more
    occurrence of a term of the query, at its end, leaves the candidate
    documents as they are and adds the contribution of that term once more
    to the score of each. *)
Theorem term_order_and_repeats (A : Arith) (index : Index.t)
    (q q' : list string) (t d : string) :
  (fst (runQLQuery_in A q index)
   = collect (QL_score_in A index q) (elements (spec_candidates index q))
   ∧ fst (runBM25Query_in A q index)
     = collect (BM25_score_in A index q) (elements (spec_candidates index q))
   ∧ QL_score_in A index q d
     = accumulate A (QL_contribution_in A index d <$> q)
   ∧ BM25_score_in A index q d
     = rbind (bigK_of A (n_1_8 A) (n_0_75 A) index d) (λ _,
       accumulate A (BM25_contribution_in A index d <$> q)))
  ∧ (q ≡ₚ q' →
     spec_candidates index q' = spec_candidates index q
     ∧ QL_contribution_in A index d <$> q'
       ≡ₚ QL_contribution_in A index d <$> q
     ∧ BM25_contribution_in A index d <$> q'
       ≡ₚ BM25_contribution_in A index d <$> q
     ∧ ((∀ x y z, n_add A x (n_add A y z) = n_add A (n_add A x y) z) →
        (∀ x y, n_add A x y = n_add A y x) →
        ∀ s, (QL_score_in A index q d = Ok s
              ↔ QL_score_in A index q' d = Ok s)
             ∧ (BM25_score_in A index q d = Ok s
                ↔ BM25_score_in A index q' d = Ok s)))
  ∧ (t ∈ q →
     spec_candidates index (q ++ [t]) = spec_candidates index q
     ∧ QL_score_in A index (q ++ [t]) d
       = rbind (QL_score_in A index q d) (λ s,
         rbind (QL_contribution_in A index d t) (λ c, Ok (plus A s c)))
     ∧ BM25_score_in A index (q ++ [t]) d
       = rbind (BM25_score_in A index q d) (λ s,
         rbind (BM25_contribution_in A index d t) (λ c, Ok (plus A s c)))).
Proof.
  split; [| split].
  - split; [apply runQLQuery_in_fst |].
    split; [apply runBM25Query_in_fst |].
    split; [done | apply BM25_score_in_contributions].
  - intros Hp. split; [| split; [| split]].
    + symmetry. by apply spec_candidates_perm.
    + by rewrite Hp.
    + by rewrite Hp.
    + intros Hassoc Hcomm s. split.
      * apply accumulate_perm_iff; try done. by rewrite Hp.
      * unfold BM25_score_in.
        destruct (bigK_of _ _ _ _ _) as [bigK | e]; simpl; [| done].
        apply accumulate_perm_iff; try done. by rewrite Hp.
  - intros Ht. split; [| split].
    + apply spec_candidates_same_terms. intros x. rewrite elem_of_app.
      split; [| by left].
      intros [Hx | Hx]; [done |]. by apply list_elem_of_singleton in Hx as ->.
    + unfold QL_score_in, QL_contribution_in, accumulate.
      by rewrite fmap_app, list_fmap_singleton, accumulate_from_snoc.
    + unfold BM25_score_in, BM25_contribution_in.
      destruct (bigK_of _ _ _ _ _) as [bigK | e]; cbn [rbind]; [| done].
      unfold accumulate. by rewrite fmap_app, list_fmap_singleton, accumulate_from_snoc.
Qed.

Lemma term_order_and_repeats_witness :
  ["cat"; "dog"] ≡ₚ ["dog"; "cat"]
  ∧ "dog" ∈ ["cat"; "dog"]
  ∧ (∀ x y z : R, (x + (y + z) = x + y + z)%R)
  ∧ (∀ x y : R, (x + y = y + x)%R)
  ∧ (∀ s, (QL_score_in exact example_index ["cat"; "dog"] "d1" = Ok s
           ↔ QL_score_in exact example_index ["dog"; "cat"] "d1" = Ok s)
          ∧ (BM25_score_in exact example_index ["cat"; "dog"] "d1" = Ok s
             ↔ BM25_score_in exact example_index ["dog"; "cat"] "d1" = Ok s))
  ∧ QL_score_in exact example_index (["cat"; "dog"] ++ ["dog"]) "d1"
    = rbind (QL_score_in exact example_index ["cat"; "dog"] "d1") (λ s,
      rbind (QL_contribution_in exact example_index "d1" "dog") (λ c,
      Ok (plus exact s c))).
Proof.
  assert (["cat"; "dog"] ≡ₚ ["dog"; "cat"]) as Hp by apply Permutation_swap.
  assert ("dog" ∈ ["cat"; "dog"]) as Ht by (right; left).
  assert (∀ x y z : R, (x + (y + z) = x + y + z)%R) as Hassoc
    by (intros; lra).
  assert (∀ x y : R, (x + y = y + x)%R) as Hcomm by (intros; lra).
  pose proof (term_order_and_repeats exact example_index ["cat"; "dog"]
                ["dog"; "cat"] "dog" "d1") as (_ & H1 & H2).
  exact (conj Hp (conj Ht (conj Hassoc (conj Hcomm
           (conj (proj2 (proj2 (proj2 (H1 Hp))) Hassoc Hcomm)
              (proj1 (proj2 (H2 Ht)))))))).
Defined.

(** C8, as stated, fails in binary64.  The corpus has the one document
    "cat dog emu emu"; an occurrence of "cat" or of "dog" contributes
    [log 0.25] to its QL score and one of "emu" contributes [log 0.5].  The
    score is -3.4657359027997265 for the query cat dog emu and
    -3.465735902799726 for the query cat emu dog. *)
Lemma term_order_binary64 :
  ["cat"; "dog"; "emu"] ≡ₚ ["cat"; "emu"; "dog"]
  ∧ QL_contribution_in (binary64 libm_log_example) emu_index "d1"
      <$> ["cat"; "dog"; "emu"]
    = [Ok (Some (-0x1.62e42fefa39efp+0)%float);
       Ok (Some (-0x1.62e42fefa39efp+0)%float);
       Ok (Some (-0x1.62e42fefa39efp-1)%float)]
  ∧ fst (runQLQuery_in (binary64 libm_log_example) ["cat"; "dog"; "emu"]
           emu_index)
    = Ok [("d1", (-0x1.bb9d3beb8c86bp+1)%float)]
  ∧ fst (runQLQuery_in (binary64 libm_log_example) ["cat"; "emu"; "dog"]
           emu_index)
    = Ok [("d1", (-0x1.bb9d3beb8c86ap+1)%float)]
  ∧ PrimFloat.ltb (-0x1.bb9d3beb8c86bp+1) (-0x1.bb9d3beb8c86ap+1) = true.
Proof.
  split; [apply perm_skip, Permutation_swap |].
  repeat split; by vm_compute.
Qed.

(** * Further results *)

(** ** The postings of a corpus *)

Lemma appended_appended o l1 l2 :
  appended (appended o l1) l2 = appended o (l1 ++ l2)%list.
Proof.
  destruct l1 as [| x l1]; [done |]. destruct l2 as [| y l2]; simpl.
  - by rewrite app_nil_r.
  - by rewrite <- app_assoc.
Qed.

Lemma positions_at_add_token sid ix i tok t d :
  positions_at (fst (Index.add_token sid (ix, i) tok)) t d
  = if decide (t = tok ∧ d = sid)
    then Some (default [] (positions_at ix t d) ++ [i])%list
    else positions_at ix t d.
Proof.
  rewrite add_token_eq. unfold positions_at. simpl.
  destruct (decide (t = tok)) as [-> | Hne].
  - rewrite lookup_insert_eq. destruct (decide (d = sid)) as [-> | Hd].
    + rewrite lookup_insert_eq, decide_True by done.
      by destruct (ix !! tok).
    + rewrite lookup_insert_ne by done. rewrite decide_False by tauto.
      by destruct (ix !! tok).
  - rewrite lookup_insert_ne by done. by rewrite decide_False by tauto.
Qed.

Lemma positions_at_add_tokens sid tokens ix i t d :
  positions_at (fst (fold_left (Index.add_token sid) tokens (ix, i))) t d
  = if decide (d = sid)
    then appended (positions_at ix t d) (positions_of t tokens i)
    else positions_at ix t d.
Proof.
  revert ix i. induction tokens as [| tok tokens IH]; intros ix i.
  - simpl. by destruct (decide _).
  - cbn [fold_left positions_of].
    pose proof (positions_at_add_token sid ix i tok t d) as H.
    destruct (Index.add_token sid (ix, i) tok) as [ix' i'] eqn:E.
    assert (i' = i + 1) as -> by (rewrite add_token_eq in E; congruence).
    rewrite IH. simpl in H. rewrite H.
    destruct (decide (d = sid)) as [-> | Hd].
    + destruct (decide (tok = t)) as [-> | Hne].
      * rewrite decide_True by done.
        destruct (positions_of t tokens (i + 1)); simpl; [done |].
        by rewrite <- app_assoc.
      * by rewrite decide_False by (intros [? _]; congruence).
    + by rewrite decide_False by tauto.
Qed.

Lemma positions_at_add doc index t d :
  positions_at (Index.index (Index.add doc index)) t d
  = if decide (d = storyID doc)
    then appended (positions_at (Index.index index) t d)
           (positions_of t (split (text doc)) 0)
    else positions_at (Index.index index) t d.
Proof. apply positions_at_add_tokens. Qed.

Lemma positions_at_build corpus index t sid :
  positions_at
    (Index.index (fold_left (λ ix d, Index.add d ix) corpus index)) t sid
  = appended (positions_at (Index.index index) t sid)
      (corpus_positions corpus t sid).
Proof.
  revert index. induction corpus as [| d corpus IH]; intros index.
  - done.
  - cbn [fold_left]. rewrite IH, positions_at_add.
    unfold corpus_positions. rewrite fmap_cons. cbn [concat].
    destruct (decide (sid = storyID d)) as [-> | Hne].
    + rewrite decide_True by done. apply appended_appended.
    + by rewrite decide_False by congruence.
Qed.

Lemma getPostings_positions_at index t sid :
  Index.getPostings index t !! sid = positions_at (Index.index index) t sid.
Proof.
  unfold Index.getPostings, positions_at.
  destruct (_ !! t); [done | apply lookup_empty].
Qed.

Lemma getPostings_build corpus t sid :
  Index.getPostings (buildIndex corpus) t !! sid
  = appended None (corpus_positions corpus t sid).
Proof.
  rewrite getPostings_positions_at. unfold buildIndex.
  by rewrite positions_at_build.
Qed.

(** X1.  The postings of a built index, for any corpus: the position list of
    a token under a document ID is made of the positions of the token in the
    documents added with that ID, in the order of the corpus, and the entry
    exists exactly when there is such a position. *)
Theorem postings_of_corpus (corpus : list Document) (t sid : string) :
  Index.getPostings (buildIndex corpus) t !! sid
  = appended None (corpus_positions corpus t sid).
Proof. apply getPostings_build. Qed.

Lemma corpus_positions_notin corpus t sid :
  sid ∉ storyID <$> corpus → corpus_positions corpus t sid = [].
Proof.
  unfold corpus_positions. induction corpus as [| d corpus IH]; [done |].
  rewrite !fmap_cons. intros [Hne Hn]%not_elem_of_cons. cbn [concat].
  rewrite decide_False by congruence. by apply IH.
Qed.

Lemma corpus_positions_NoDup corpus t d :
  NoDup (storyID <$> corpus) → d ∈ corpus →
  corpus_positions corpus t (storyID d) = positions_of t (split (text d)) 0.
Proof.
  unfold corpus_positions. induction corpus as [| d0 corpus IH]; intros Hnd Hin.
  - by apply elem_of_nil in Hin.
  - rewrite fmap_cons in Hnd. apply NoDup_cons in Hnd as [Hnotin Hnd].
    rewrite fmap_cons. cbn [concat].
    apply elem_of_cons in Hin as [-> | Hin].
    + rewrite decide_True by done.
      fold (corpus_positions corpus t (storyID d0)).
      rewrite corpus_positions_notin by done. apply app_nil_r.
    + rewrite decide_False.
      * by apply IH.
      * intros E. apply Hnotin. rewrite E. by apply list_elem_of_fmap_2.
Qed.

Lemma length_positions_of t tokens i :
  Z.of_nat (length (positions_of t tokens i)) = occurrences t tokens.
Proof.
  unfold occurrences. revert i. induction tokens as [| x tokens IH]; intros i.
  - done.
  - cbn [positions_of]. rewrite filter_cons.
    destruct (decide (x = t)); simpl; [| apply IH].
    specialize (IH (i + 1)). lia.
Qed.

Lemma elem_of_positions_of t tokens i p :
  p ∈ positions_of t tokens i
  ↔ i ≤ p ∧ tokens !! Z.to_nat (p - i) = Some t.
Proof.
  revert i. induction tokens as [| x tokens IH]; intros i.
  - simpl. split; [by intros H%elem_of_nil | by intros [_ H]].
  - cbn [positions_of].
    assert (p ∈ positions_of t tokens (i + 1)
            ↔ i < p ∧ (x :: tokens) !! Z.to_nat (p - i) = Some t) as Hrest.
    { rewrite IH. split.
      - intros [Hle Hl]. split; [lia |].
        replace (Z.to_nat (p - i)) with (S (Z.to_nat (p - (i + 1)))) by lia.
        done.
      - intros [Hlt Hl]. split; [lia |].
        replace (Z.to_nat (p - i)) with (S (Z.to_nat (p - (i + 1)))) in Hl
          by lia.
        done. }
    destruct (decide (x = t)) as [-> | Hne].
    + rewrite elem_of_cons, Hrest. split.
      * intros [-> | [Hlt Hl]]; [| split; [lia | done]].
        split; [lia |]. by rewrite Z.sub_diag.
      * intros [Hle Hl]. destruct (decide (p = i)) as [-> | Hpi]; [by left |].
        right. split; [lia | done].
    + rewrite Hrest. split.
      * intros [Hlt Hl]. split; [lia | done].
      * intros [Hle Hl]. split; [| done].
        destruct (decide (p = i)) as [-> | Hpi]; [| lia].
        rewrite Z.sub_diag in Hl. simpl in Hl. congruence.
Qed.

Lemma positions_of_sorted t tokens i :
  StronglySorted Z.lt (positions_of t tokens i).
Proof.
  revert i. induction tokens as [| x tokens IH]; intros i; [constructor |].
  cbn [positions_of]. destruct (decide (x = t)); [| apply IH].
  constructor; [apply IH |]. apply Forall_forall. intros p Hp.
  apply elem_of_positions_of in Hp. lia.
Qed.

Lemma positions_of_nil t tokens i :
  positions_of t tokens i = [] ↔ t ∉ tokens.
Proof.
  revert i. induction tokens as [| x tokens IH]; intros i.
  - split; [intros _; apply not_elem_of_nil | done].
  - cbn [positions_of]. rewrite not_elem_of_cons.
    destruct (decide (x = t)) as [-> | Hne].
    + split; [done | by intros [? _]].
    + rewrite IH. split; [by split | by intros [_ ?]].
Qed.

(** X2.  With pairwise distinct IDs, the position list of a token under a
    document of the corpus is exactly the list of the positions (from 0) at
    which the token stands in the split text, in increasing order; no list
    is stored when the token does not occur in the document. *)
Theorem postings_of_document (corpus : list Document) (d : Document)
    (t : string) :
  NoDup (storyID <$> corpus) → d ∈ corpus →
  Index.getPostings (buildIndex corpus) t !! storyID d
  = appended None (positions_of t (split (text d)) 0)
  ∧ StronglySorted Z.lt (positions_of t (split (text d)) 0)
  ∧ (∀ p, p ∈ positions_of t (split (text d)) 0
          ↔ 0 ≤ p ∧ split (text d) !! Z.to_nat p = Some t).
Proof.
  intros Hnd Hin. split; [| split].
  - by rewrite getPostings_build, corpus_positions_NoDup.
  - apply positions_of_sorted.
  - intros p. rewrite elem_of_positions_of. by rewrite Z.sub_0_r.
Qed.

Lemma postings_of_document_witness :
  NoDup (storyID <$> example_corpus)
  ∧ mkDocument "d1" "cat dog cat" ∈ example_corpus
  ∧ Index.getPostings (buildIndex example_corpus) "cat" !! "d1"
    = appended None (positions_of "cat" (split "cat dog cat") 0)
  ∧ StronglySorted Z.lt (positions_of "cat" (split "cat dog cat") 0)
  ∧ (∀ p, p ∈ positions_of "cat" (split "cat dog cat") 0
          ↔ 0 ≤ p ∧ split "cat dog cat" !! Z.to_nat p = Some "cat").
Proof.
  assert (NoDup (storyID <$> example_corpus)) as H1.
  { apply NoDup_cons. split; [| apply NoDup_singleton].
    intros Hin. by apply list_elem_of_singleton in Hin. }
  assert (mkDocument "d1" "cat dog cat" ∈ example_corpus) as H2 by left.
  exact (conj H1 (conj H2
           (postings_of_document example_corpus
              (mkDocument "d1" "cat dog cat") "cat" H1 H2))).
Defined.

(** ** The accessors, read off the corpus *)

Lemma Zsum_app l1 l2 : Zsum (l1 ++ l2) = Zsum l1 + Zsum l2.
Proof.
  unfold Zsum. induction l1 as [| x l1 IH]; simpl; [done |]. lia.
Qed.

Lemma occurrences_app t l1 l2 :
  occurrences t (l1 ++ l2) = occurrences t l1 + occurrences t l2.
Proof. unfold occurrences. rewrite filter_app, length_app. lia. Qed.

Lemma occurrences_le t tokens : occurrences t tokens ≤ Z.of_nat (length tokens).
Proof.
  unfold occurrences. pose proof (length_filter (λ x, x = t) tokens). lia.
Qed.

Lemma tf_positions_at index t d :
  Index.getTokenFrequencyInDocument index t d
  = Z.of_nat (length (default [] (positions_at (Index.index index) t d))).
Proof.
  unfold Index.getTokenFrequencyInDocument, positions_at.
  destruct (_ !! t) as [p |]; [| done]. by destruct (p !! d).
Qed.

Lemma default_appended_None l : default [] (appended None l) = l.
Proof. by destruct l. Qed.

Lemma length_corpus_positions corpus t sid :
  Z.of_nat (length (corpus_positions corpus t sid))
  = Zsum ((λ d, if decide (storyID d = sid)
                then occurrences t (split (text d)) else 0) <$> corpus).
Proof.
  unfold corpus_positions, Zsum.
  induction corpus as [| d corpus IH]; [done |].
  rewrite !fmap_cons. cbn [concat foldr]. rewrite length_app, <- IH.
  destruct (decide _); [| simpl; lia].
  rewrite <- (length_positions_of t (split (text d)) 0). lia.
Qed.

(** X3.  For any corpus, the frequency of a token under a document ID is the
    number of occurrences of the token in all the documents that were added
    with that ID (not only in the one that is stored last). *)
Theorem term_frequency_of_corpus (corpus : list Document) (t sid : string) :
  Index.getTokenFrequencyInDocument (buildIndex corpus) t sid
  = Zsum ((λ d, if decide (storyID d = sid)
                then occurrences t (split (text d)) else 0) <$> corpus).
Proof.
  rewrite tf_positions_at, <- getPostings_positions_at, getPostings_build.
  rewrite default_appended_None. apply length_corpus_positions.
Qed.

Lemma tf_of_document corpus d t :
  NoDup (storyID <$> corpus) → d ∈ corpus →
  Index.getTokenFrequencyInDocument (buildIndex corpus) t (storyID d)
  = occurrences t (split (text d)).
Proof.
  intros Hnd Hin.
  rewrite tf_positions_at, <- getPostings_positions_at, getPostings_build.
  rewrite default_appended_None, corpus_positions_NoDup by done.
  apply length_positions_of.
Qed.

Lemma corpus_positions_nil corpus t sid :
  corpus_positions corpus t sid = []
  ↔ ∀ d, d ∈ corpus → storyID d = sid → t ∉ split (text d).
Proof.
  unfold corpus_positions. induction corpus as [| d0 corpus IH].
  - split; [| done]. intros _ d Hd. by apply elem_of_nil in Hd.
  - rewrite fmap_cons. cbn [concat]. rewrite app_nil, IH. split.
    + intros [H0 Hrest] d [-> | Hd]%elem_of_cons Hsid.
      * rewrite decide_True in H0 by done. by apply positions_of_nil in H0.
      * by apply Hrest.
    + intros H. split.
      * destruct (decide _) as [E | E]; [| done].
        apply positions_of_nil. apply H; [left | done].
      * intros d Hd. apply H. by right.
Qed.

Lemma elem_of_getDocumentIDsForToken_build corpus t sid :
  sid ∈ Index.getDocumentIDsForToken (buildIndex corpus) t
  ↔ ∃ d, d ∈ corpus ∧ storyID d = sid ∧ t ∈ split (text d).
Proof.
  assert (sid ∈ Index.getDocumentIDsForToken (buildIndex corpus) t
          ↔ is_Some (Index.getPostings (buildIndex corpus) t !! sid)) as ->.
  { unfold Index.getDocumentIDsForToken, Index.getPostings.
    destruct (_ !! t) as [p |].
    - apply elem_of_dom.
    - rewrite lookup_empty. split; [by intros H%not_elem_of_empty |].
      by intros [? ?]. }
  rewrite getPostings_build.
  destruct (corpus_positions corpus t sid) as [| p l] eqn:E.
  - simpl. split; [by intros [? ?] |]. intros (d & Hd & Hsid & Ht).
    exfalso. by apply (proj1 (corpus_positions_nil corpus t sid) E d).
  - simpl. split; [| by eexists]. intros _.
    destruct (decide (Exists (λ d, storyID d = sid ∧ t ∈ split (text d))
                        corpus)) as [Hex | Hnex].
    + apply Exists_exists in Hex as (d & Hd & Hsid & Ht). by exists d.
    + exfalso. assert (corpus_positions corpus t sid = []) as E'.
      { apply corpus_positions_nil. intros d Hd Hsid Ht. apply Hnex.
        apply Exists_exists. by exists d. }
      congruence.
Qed.

(** X4.  For any corpus, the documents returned for a token are exactly the
    IDs of the documents whose split text contains the token. *)
Theorem documents_containing (corpus : list Document) (t sid : string) :
  sid ∈ Index.getDocumentIDsForToken (buildIndex corpus) t
  ↔ ∃ d, d ∈ corpus ∧ storyID d = sid ∧ t ∈ split (text d).
Proof. apply elem_of_getDocumentIDsForToken_build. Qed.

Lemma token_total_add_token sid ix i tok t :
  token_total (fst (Index.add_token sid (ix, i) tok)) t
  = token_total ix t + (if decide (tok = t) then 1 else 0).
Proof.
  rewrite add_token_eq. unfold token_total. cbn [fst].
  destruct (decide (tok = t)) as [-> | Hne].
  - rewrite lookup_insert_eq. unfold Index.posting_total.
    destruct (ix !! t) as [p |] eqn:E; simpl.
    + destruct (p !! sid) as [l |] eqn:El; simpl.
      * rewrite (map_sum_insert_Some _ _ _ _ l El). rewrite length_app.
        simpl. lia.
      * rewrite map_sum_insert_None by done. simpl. lia.
    + rewrite lookup_empty. simpl.
      rewrite map_sum_insert_None by apply lookup_empty.
      rewrite map_sum_empty. simpl. lia.
  - rewrite lookup_insert_ne by done. lia.
Qed.

Lemma occurrences_cons t tok tokens :
  occurrences t (tok :: tokens)
  = (if decide (tok = t) then 1 else 0) + occurrences t tokens.
Proof.
  unfold occurrences. rewrite filter_cons.
  destruct (decide (tok = t)); simpl; lia.
Qed.

Lemma token_total_add_tokens sid tokens ix i t :
  token_total (fst (fold_left (Index.add_token sid) tokens (ix, i))) t
  = token_total ix t + occurrences t tokens.
Proof.
  revert ix i. induction tokens as [| tok tokens IH]; intros ix i.
  - unfold occurrences. simpl. lia.
  - cbn [fold_left].
    pose proof (token_total_add_token sid ix i tok t) as H.
    destruct (Index.add_token sid (ix, i) tok) as [ix' i'].
    rewrite IH, occurrences_cons. simpl in H. lia.
Qed.

Lemma token_total_build corpus index t :
  token_total
    (Index.index (fold_left (λ ix d, Index.add d ix) corpus index)) t
  = token_total (Index.index index) t
    + occurrences t (corpus_tokens corpus).
Proof.
  revert index. induction corpus as [| d corpus IH]; intros index.
  - unfold occurrences. simpl. lia.
  - cbn [fold_left]. rewrite IH. unfold corpus_tokens.
    rewrite fmap_cons. cbn [concat]. rewrite occurrences_app.
    fold (corpus_tokens corpus).
    change (Index.index (Index.add d index))
      with (fst (fold_left (Index.add_token (storyID d)) (split (text d))
                   (Index.index index, 0))).
    rewrite token_total_add_tokens. lia.
Qed.

Lemma collection_frequency_eq corpus t :
  Index.getTotalTokenFrequency (buildIndex corpus) t
  = occurrences t (corpus_tokens corpus)
  ∧ (Index.getTotalTokenFrequency (buildIndex corpus) t = 0
     ↔ t ∉ corpus_tokens corpus).
Proof.
  assert (Index.getTotalTokenFrequency (buildIndex corpus) t
          = occurrences t (corpus_tokens corpus)) as E.
  { change (token_total (Index.index (buildIndex corpus)) t
            = occurrences t (corpus_tokens corpus)).
    unfold buildIndex. rewrite token_total_build. unfold token_total.
    simpl. rewrite lookup_empty. lia. }
  split; [done |]. rewrite E. unfold occurrences.
  rewrite <- (positions_of_nil t (corpus_tokens corpus) 0).
  pose proof (length_positions_of t (corpus_tokens corpus) 0) as Hl.
  unfold occurrences in Hl. rewrite <- Hl.
  destruct (positions_of t (corpus_tokens corpus) 0); simpl; split;
    try done; lia.
Qed.

(** X5.  For any corpus, the total frequency of a token is the number of its
    occurrences in the split texts of all added documents; it is 0 exactly
    for the tokens that occur in no document. *)
Theorem collection_frequency (corpus : list Document) (t : string) :
  Index.getTotalTokenFrequency (buildIndex corpus) t
  = occurrences t (corpus_tokens corpus)
  ∧ (Index.getTotalTokenFrequency (buildIndex corpus) t = 0
     ↔ t ∉ corpus_tokens corpus).
Proof. apply collection_frequency_eq. Qed.

Lemma Zsum_lengths corpus :
  foldr Z.add 0 ((λ d, Z.of_nat (length (split (text d)))) <$> corpus)
  = Z.of_nat (length (corpus_tokens corpus)).
Proof.
  unfold corpus_tokens. induction corpus as [| d corpus IH]; [done |].
  rewrite !fmap_cons. cbn [foldr concat]. rewrite length_app, IH. lia.
Qed.

Lemma docCount_build corpus index :
  Index.docCount (fold_left (λ ix d, Index.add d ix) corpus index)
  = Index.docCount index + Z.of_nat (length corpus).
Proof.
  revert index. induction corpus as [| d corpus IH]; intros index.
  - simpl. lia.
  - cbn [fold_left length]. rewrite IH. simpl. lia.
Qed.

Lemma totals_build corpus :
  fst (Index.getTotalTokenCount (buildIndex corpus))
  = Z.of_nat (length (corpus_tokens corpus))
  ∧ Index.getNumberOfDocuments (buildIndex corpus)
    = Z.of_nat (length corpus).
Proof.
  split.
  - rewrite (built_total _ (built_buildIndex corpus)). unfold buildIndex.
    rewrite index_total_build, index_total_init, Zsum_lengths. lia.
  - unfold Index.getNumberOfDocuments, buildIndex. rewrite docCount_build.
    simpl. lia.
Qed.

(** X6.  For any corpus, also one in which IDs repeat: the total token count
    is the number of tokens of all added documents, and the number of
    documents is the number of [add] calls. *)
Theorem totals_of_corpus (corpus : list Document) :
  fst (Index.getTotalTokenCount (buildIndex corpus))
  = Z.of_nat (length (corpus_tokens corpus))
  ∧ Index.getNumberOfDocuments (buildIndex corpus)
    = Z.of_nat (length corpus).
Proof. apply totals_build. Qed.

(** X7.  [getAverageDocumentLength] on a built index raises
    [ZeroDivisionError] exactly for the empty corpus; otherwise it returns
    the number of tokens divided by the number of added documents. *)
Theorem average_document_length (corpus : list Document) :
  fst (Index.getAverageDocumentLength (buildIndex corpus))
  = match corpus with
    | [] => Raise ZeroDivisionError
    | _ => Ok (IZR (Z.of_nat (length (corpus_tokens corpus)))
               / IZR (Z.of_nat (length corpus)))%R
    end.
Proof.
  rewrite getAverageDocumentLength_fst.
  destruct (totals_build corpus) as [-> ->].
  destruct corpus as [| d corpus]; [apply pydiv_zero |].
  apply pydiv_ok. apply not_0_IZR. simpl. lia.
Qed.

Lemma dom_add_tokens sid tokens ix i :
  dom (fst (fold_left (Index.add_token sid) tokens (ix, i)))
  = list_to_set tokens ∪ dom ix.
Proof.
  revert ix i. induction tokens as [| tok tokens IH]; intros ix i.
  - simpl. by rewrite (left_id_L ∅ (∪)).
  - cbn [fold_left]. rewrite add_token_eq, IH, dom_insert_L. simpl.
    apply set_eq. intros x. rewrite !elem_of_union. tauto.
Qed.

Lemma dom_index_build corpus index :
  dom (Index.index (fold_left (λ ix d, Index.add d ix) corpus index))
  = list_to_set (corpus_tokens corpus) ∪ dom (Index.index index).
Proof.
  revert index. induction corpus as [| d corpus IH]; intros index.
  - simpl. by rewrite (left_id_L ∅ (∪)).
  - cbn [fold_left]. rewrite IH. unfold corpus_tokens.
    rewrite fmap_cons. cbn [concat]. fold (corpus_tokens corpus).
    change (Index.index (Index.add d index))
      with (fst (fold_left (Index.add_token (storyID d)) (split (text d))
                   (Index.index index, 0))).
    rewrite dom_add_tokens, list_to_set_app_L.
    apply set_eq. intros x. rewrite !elem_of_union. tauto.
Qed.

Lemma totalUniqueTokens_build corpus index :
  Index.totalUniqueTokens (fold_left (λ ix d, Index.add d ix) corpus index)
  = Index.totalUniqueTokens index.
Proof.
  revert index. induction corpus as [| d corpus IH]; intros index; simpl;
    [done | by rewrite IH].
Qed.

Lemma dom_index_buildIndex corpus :
  dom (Index.index (buildIndex corpus)) = list_to_set (corpus_tokens corpus).
Proof.
  unfold buildIndex. rewrite dom_index_build. simpl.
  by rewrite dom_empty_L, (right_id_L ∅ (∪)).
Qed.

(** X8.  On a built index, [getUniqueTotalTokenCount] returns the number of
    distinct tokens of the corpus, and the tokens with postings are exactly
    the tokens that occur in some document. *)
Theorem unique_token_count (corpus : list Document) :
  fst (Index.getUniqueTotalTokenCount (buildIndex corpus))
  = Z.of_nat (size (list_to_set (corpus_tokens corpus) : gset string))
  ∧ ∀ t, is_Some (Index.getIndex (buildIndex corpus) !! t)
         ↔ t ∈ corpus_tokens corpus.
Proof.
  pose proof (dom_index_buildIndex corpus) as Hdom.
  split.
  - unfold Index.getUniqueTotalTokenCount, buildIndex.
    rewrite totalUniqueTokens_build. simpl.
    fold (buildIndex corpus). by rewrite <- Hdom, size_dom.
  - intros t. unfold Index.getIndex.
    rewrite <- elem_of_dom, Hdom. apply elem_of_list_to_set.
Qed.

Lemma documents_build_last corpus index sid :
  Index.documents (fold_left (λ ix d, Index.add d ix) corpus index) !! sid
  = match last (filter (λ d, storyID d = sid) corpus) with
    | Some d => Some d
    | None => Index.documents index !! sid
    end.
Proof.
  revert index. induction corpus as [| d corpus IH]; intros index.
  - done.
  - cbn [fold_left]. rewrite IH, filter_cons. simpl.
    destruct (decide (storyID d = sid)) as [<- | Hne].
    + rewrite last_cons.
      destruct (last (filter _ corpus)); [done | apply lookup_insert_eq].
    + destruct (last (filter _ corpus)); [done |].
      by rewrite lookup_insert_ne.
Qed.

(** X9.  For any corpus, the stored document of an ID is the last document
    added with that ID, and [getDocumentLength] is the number of tokens of
    that document (0 for an ID that was never added). *)
Theorem document_length_last_wins (corpus : list Document) (sid : string) :
  Index.getDocumentLength (buildIndex corpus) sid
  = match last (filter (λ d, storyID d = sid) corpus) with
    | Some d => Z.of_nat (length (split (text d)))
    | None => 0
    end.
Proof.
  unfold Index.getDocumentLength, buildIndex. rewrite documents_build_last.
  destruct (last _); [done |]. simpl. by rewrite lookup_empty.
Qed.

(** ** The cache of getTotalTokenCount *)

Lemma sum_token_frequencies_add doc index :
  Index.sum_token_frequencies (Index.add doc index)
  = Index.sum_token_frequencies index
    + Z.of_nat (length (split (text doc))).
Proof. rewrite !sum_token_frequencies_eq. apply index_total_add. Qed.

(** X10.  A second call of [getTotalTokenCount] returns the same number and
    changes nothing; and once the total was read, adding a document does not
    refresh it: the next call still returns the old number, while the
    postings hold as many more positions as the document has tokens. *)
Theorem cached_total (index : Index.t) (doc : Document) :
  let cached := snd (Index.getTotalTokenCount index) in
  Index.getTotalTokenCount cached
  = (fst (Index.getTotalTokenCount index), cached)
  ∧ fst (Index.getTotalTokenCount (Index.add doc cached))
    = fst (Index.getTotalTokenCount index)
  ∧ Index.sum_token_frequencies (Index.add doc cached)
    = Index.sum_token_frequencies index
      + Z.of_nat (length (split (text doc))).
Proof.
  intros cached. subst cached. split; [| split].
  - unfold Index.getTotalTokenCount.
    destruct (Index.totalTokenCount index) eqn:E; simpl; by rewrite ?E.
  - unfold Index.getTotalTokenCount.
    destruct (Index.totalTokenCount index) eqn:E; simpl; by rewrite ?E.
  - rewrite sum_token_frequencies_add. f_equal.
    unfold Index.getTotalTokenCount, Index.sum_token_frequencies.
    by destruct (Index.totalTokenCount index).
Qed.

(** ** Queries do not depend on earlier queries *)

Lemma same_data_intersect s index q :
  same_data s index → intersect_documents s q = intersect_documents index q.
Proof.
  intros H. unfold intersect_documents. f_equal.
  generalize ((∅, true) : gset string * bool).
  induction q as [| w q IH]; intros acc; simpl; [done |].
  by rewrite (same_data_ids _ _ _ H), IH.
Qed.

Lemma runQLQuery_run q index s :
  same_data s index →
  ∃ s', runQLQuery q s = (fst (runQLQuery q index), s')
        ∧ same_data s' index.
Proof.
  intros Hs. unfold runQLQuery.
  destruct (runQLQuery_with_run 300 q index s Hs) as (s1 & E1 & Hs1).
  destruct (runQLQuery_with_run 300 q index index (same_data_refl index))
    as (s2 & E2 & _).
  exists s1. by rewrite E1, E2.
Qed.

Lemma runBM25Query_run q index s :
  same_data s index →
  ∃ s', runBM25Query q s = (fst (runBM25Query q index), s')
        ∧ same_data s' index.
Proof.
  intros Hs. unfold runBM25Query.
  destruct (runBM25Query_with_run 1.8 5 0.75 q index s Hs)
    as (s1 & E1 & Hs1).
  destruct (runBM25Query_with_run 1.8 5 0.75 q index index
              (same_data_refl index)) as (s2 & E2 & _).
  exists s1. by rewrite E1, E2.
Qed.

Lemma dispatch_run index results query s :
  same_data s index →
  ∃ s', dispatch results query s = (dispatch_pure index results query, s')
        ∧ same_data s' index.
Proof.
  intros Hs. unfold dispatch, dispatch_pure.
  destruct (decide (upper (type query) = "AND")).
  { exists s. split; [| done]. unfold bind, gets, ret, runANDQuery.
    by rewrite (same_data_intersect _ _ _ Hs). }
  destruct (decide (upper (type query) = "OR")).
  { exists s. split; [| done]. unfold bind, gets, ret, runORQuery.
    by rewrite (same_data_union _ _ _ Hs). }
  destruct (decide (upper (type query) = "QL")).
  { destruct (runQLQuery_run (queryWords query) index s Hs)
      as (s1 & E1 & Hs1).
    exists s1. split; [| done]. unfold bind, ret. rewrite E1.
    by destruct (fst (runQLQuery _ index)). }
  destruct (decide (upper (type query) = "BM25")).
  { destruct (runBM25Query_run (queryWords query) index s Hs)
      as (s1 & E1 & Hs1).
    exists s1. split; [| done]. unfold bind, ret. rewrite E1.
    by destruct (fst (runBM25Query _ index)). }
  by exists s.
Qed.

Lemma foldM_dispatch_run index queries results :
  ∃ s', foldM dispatch results queries index
        = (foldR (dispatch_pure index) results queries, s')
        ∧ same_data s' index.
Proof.
  apply (foldM_run index dispatch (dispatch_pure index));
    [| apply same_data_refl].
  intros acc x s Hs. by apply dispatch_run.
Qed.

Lemma runQueries_fst lines index :
  fst (runQueries lines index)
  = match parse_queries lines with
    | Raise e => mkOutcome [] (Some e)
    | Ok queries =>
        match foldR (dispatch_pure index) [] queries with
        | Raise e => mkOutcome [] (Some e)
        | Ok results => write_results results 0 queries []
        end
    end.
Proof.
  unfold runQueries. destruct (parse_queries lines) as [queries | e];
    [| done].
  destruct (foldM_dispatch_run index queries []) as (s' & E & Hs).
  rewrite E. by destruct (foldR _ _ _).
Qed.


(** ** The boolean models and more terms *)

(** X13.  More query terms can only remove documents from the result of a
    non-empty AND query and can only add documents to the result of an OR
    query; for a single term both are the documents of that term. *)
Theorem boolean_models_monotone (index : Index.t) (q q' : list string)
    (t : string) :
  q ≠ [] →
  (∀ d, d ∈ result_documents (runANDQuery index (q ++ q'))
        → d ∈ result_documents (runANDQuery index q))
  ∧ (∀ d, d ∈ result_documents (runORQuery index q)
          → d ∈ result_documents (runORQuery index (q ++ q')))
  ∧ (∀ d, d ∈ result_documents (runANDQuery index [t])
          ↔ d ∈ Index.getDocumentIDsForToken index t)
  ∧ (∀ d, d ∈ result_documents (runORQuery index [t])
          ↔ d ∈ Index.getDocumentIDsForToken index t).
Proof.
  intros Hq. rewrite !runANDQuery_eq, !runORQuery_eq.
  rewrite !result_documents_scored. split; [| split; [| split]].
  - intros d. rewrite !elem_of_elements.
    rewrite !elem_of_intersect_documents; [| done | by destruct q].
    intros H x Hx. apply H. apply elem_of_app. by left.
  - intros d. rewrite !elem_of_elements, !elem_of_spec_candidates.
    intros (x & Hx & Hd). exists x. split; [| done].
    apply elem_of_app. by left.
  - intros d. rewrite elem_of_elements, elem_of_intersect_documents by done.
    unfold spec_AND_member. split.
    + intros H. apply H. left.
    + intros H x Hx. by apply list_elem_of_singleton in Hx as ->.
  - intros d. rewrite elem_of_elements, elem_of_spec_candidates. split.
    + intros (x & Hx & Hd). by apply list_elem_of_singleton in Hx as ->.
    + intros H. exists t. split; [left | done].
Qed.

Lemma boolean_models_monotone_witness :
  ["cat"] ≠ []
  ∧ (∀ d, d ∈ result_documents (runANDQuery example_index (["cat"] ++ ["dog"]))
          → d ∈ result_documents (runANDQuery example_index ["cat"]))
  ∧ (∀ d, d ∈ result_documents (runORQuery example_index ["cat"])
          → d ∈ result_documents
                  (runORQuery example_index (["cat"] ++ ["dog"])))
  ∧ (∀ d, d ∈ result_documents (runANDQuery example_index ["dog"])
          ↔ d ∈ Index.getDocumentIDsForToken example_index "dog")
  ∧ (∀ d, d ∈ result_documents (runORQuery example_index ["dog"])
          ↔ d ∈ Index.getDocumentIDsForToken example_index "dog").
Proof.
  assert (["cat"] ≠ []) as H by done.
  exact (conj H (boolean_models_monotone example_index ["cat"] ["dog"]
                   "dog" H)).
Defined.

(** ** Query likelihood on a built index *)

(** X14.  What [runQLQuery] returns on a built index, for any corpus and
    query: the empty collection when no document contains a query term;
    otherwise the collection of the scored candidates when every query term
    occurs in the corpus, and [ValueError] when some query term does not.
    It never raises [ZeroDivisionError]. *)
Theorem QL_outcome (corpus : list Document) (q : list string) :
  fst (runQLQuery q (buildIndex corpus))
  = if decide (spec_candidates (buildIndex corpus) q = ∅)
    then Ok (QueryResults.init "QL")
    else if decide (Forall (λ t, t ∈ corpus_tokens corpus) q)
    then Ok (scored "QL" (spec_QL_score (buildIndex corpus) q)
               (elements (spec_candidates (buildIndex corpus) q)))
    else Raise ValueError.
Proof.
  rewrite (runQLQuery_built _ _ (built_buildIndex corpus)).
  destruct (decide (spec_candidates _ _ = ∅)); [done |].
  assert (∀ t, 0 < Index.getTotalTokenFrequency (buildIndex corpus) t
               ↔ t ∈ corpus_tokens corpus) as Hiff.
  { intros t. destruct (collection_frequency_eq corpus t) as [_ H0].
    pose proof (getTotalTokenFrequency_nonneg (buildIndex corpus) t).
    destruct (decide (t ∈ corpus_tokens corpus)) as [Hin | Hnin].
    - split; [done |]. intros _.
      assert (Index.getTotalTokenFrequency (buildIndex corpus) t ≠ 0);
        [| lia].
      intros E. by apply H0 in E.
    - split; [| done]. apply H0 in Hnin. lia. }
  destruct (decide (Forall _ q)) as [H | H];
    destruct (decide (Forall (λ t, t ∈ _) q)) as [H' | H']; try done.
  - destruct H'. eapply Forall_impl; [exact H |]. intros t. apply Hiff.
  - destruct H. eapply Forall_impl; [exact H' |]. intros t. apply Hiff.
Qed.

Lemma Rdiv_le_one (x y : R) : (0 < y)%R → (x <= y)%R → (x / y <= 1)%R.
Proof.
  intros Hy Hxy. apply (Rmult_le_reg_r y); [done |].
  unfold Rdiv. rewrite Rmult_assoc, Rinv_l by lra. lra.
Qed.

Lemma ln_nonpos (x : R) : (0 < x)%R → (x <= 1)%R → (ln x <= 0)%R.
Proof.
  intros H0 H1. destruct (Rle_lt_or_eq x 1 H1) as [Hlt | ->].
  - left. rewrite <- ln_1. by apply ln_increasing.
  - right. apply ln_1.
Qed.

Lemma spec_QL_term_nonpos index d t :
  0 < Index.getTotalTokenFrequency index t →
  Index.getTotalTokenFrequency index t ≤ spec_totalTokenCount index →
  Index.getTokenFrequencyInDocument index t d
  ≤ Index.getDocumentLength index d →
  (spec_QL_term index d t <= 0)%R.
Proof.
  intros Hctf Htot Htf. unfold spec_QL_term.
  pose proof (IZR_pos _ Hctf) as Hc.
  apply IZR_le in Htot, Htf.
  pose proof (IZR_nonneg _ (getTokenFrequencyInDocument_nonneg index t d)).
  assert (0 < IZR (Index.getTotalTokenFrequency index t)
              / IZR (spec_totalTokenCount index))%R
    by (apply Rdiv_lt_0_compat; lra).
  assert (IZR (Index.getTotalTokenFrequency index t)
          / IZR (spec_totalTokenCount index) <= 1)%R
    by (apply Rdiv_le_one; lra).
  apply ln_nonpos.
  - apply Rdiv_lt_0_compat; lra.
  - apply Rdiv_le_one; lra.
Qed.

Lemma Rsum_nonpos (l : list R) :
  Forall (λ x, (x <= 0)%R) l → (Rsum l <= 0)%R.
Proof.
  induction 1 as [| x l Hx _ IH]; [unfold Rsum; simpl; lra |].
  rewrite Rsum_cons. lra.
Qed.

(** In a corpus with distinct IDs a token is no more frequent in a document
    than the document is long. *)
Lemma tf_le_dl corpus t sid :
  NoDup (storyID <$> corpus) →
  Index.getTokenFrequencyInDocument (buildIndex corpus) t sid
  ≤ Index.getDocumentLength (buildIndex corpus) sid.
Proof.
  intros Hnd.
  destruct (decide (sid ∈ storyID <$> corpus)) as [Hin | Hnin].
  - apply list_elem_of_fmap in Hin as (d & -> & Hd).
    rewrite tf_of_document by done.
    unfold Index.getDocumentLength, buildIndex.
    rewrite documents_build_lookup by done. apply occurrences_le.
  - rewrite tf_positions_at, <- getPostings_positions_at, getPostings_build.
    rewrite corpus_positions_notin by done. simpl.
    apply getDocumentLength_nonneg.
Qed.

(** X15.  With pairwise distinct IDs, no score that [runQLQuery] returns is
    positive: every term contributes the logarithm of a number that is at
    most 1. *)
Theorem QL_scores_nonpositive (corpus : list Document) (q : list string)
    (r : QueryResults.t) :
  NoDup (storyID <$> corpus) →
  fst (runQLQuery q (buildIndex corpus)) = Ok r →
  Forall (λ x, (score x <= 0)%R) (QueryResults.results r).
Proof.
  intros Hnd. pose proof (built_buildIndex corpus) as Hb.
  rewrite (runQLQuery_built _ _ Hb).
  destruct (decide _); [intros [= <-]; constructor |].
  destruct (decide (Forall _ q)) as [Hall |]; [| done].
  intros [= <-]. unfold scored. simpl. apply Forall_fmap, Forall_forall.
  intros d _. simpl. unfold spec_QL_score. apply Rsum_nonpos.
  apply Forall_fmap. eapply Forall_impl; [exact Hall |].
  intros t Ht. simpl. apply spec_QL_term_nonpos; [done | |].
  - by apply getTotalTokenFrequency_le_total.
  - by apply tf_le_dl.
Qed.

Lemma QL_scores_nonpositive_witness :
  NoDup (storyID <$> example_corpus)
  ∧ fst (runQLQuery ["dog"] (buildIndex example_corpus))
    = Ok (scored "QL" (spec_QL_score (buildIndex example_corpus) ["dog"])
            (elements (spec_candidates (buildIndex example_corpus) ["dog"])))
  ∧ Forall (λ x, (score x <= 0)%R)
      (QueryResults.results
         (scored "QL" (spec_QL_score (buildIndex example_corpus) ["dog"])
            (elements (spec_candidates (buildIndex example_corpus) ["dog"])))).
Proof.
  assert (NoDup (storyID <$> example_corpus)) as H1.
  { apply NoDup_cons. split; [| apply NoDup_singleton].
    intros Hin. by apply list_elem_of_singleton in Hin. }
  assert (fst (runQLQuery ["dog"] (buildIndex example_corpus))
          = Ok (scored "QL" (spec_QL_score (buildIndex example_corpus) ["dog"])
                  (elements (spec_candidates (buildIndex example_corpus)
                               ["dog"])))) as H2.
  { apply runQLQuery_built_ok; [apply built_buildIndex |].
    intros t Ht. apply list_elem_of_singleton in Ht as ->. by vm_compute. }
  exact (conj H1 (conj H2
           (QL_scores_nonpositive example_corpus ["dog"] _ H1 H2))).
Defined.

(** ** Ranking: repeated calls, ties, boolean output *)






Lemma format_rows_filter (P : string → R → bool) qn tag rank rs :
  row_document
    <$> List.filter (λ row, P (row_document row) (row_score row))
          (QueryResults.format_rows qn tag rank rs)
  = document <$> List.filter (λ x, P (document x) (score x)) rs.
Proof.
  revert rank. induction rs as [| x rs IH]; intros rank; [done |].
  cbn [QueryResults.format_rows List.filter]. simpl.
  destruct (P (document x) (score x)); simpl; by rewrite IH.
Qed.

Lemma filter_ext_bool {A : Type} (f g : A → bool) l :
  (∀ x, f x = g x) → List.filter f l = List.filter g l.
Proof.
  intros H. induction l as [| x l IH]; [done |]. simpl. by rewrite H, IH.
Qed.

Lemma by_score_desc_both s x :
  by_score_desc (mkQueryResult EmptyString s) x
  && by_score_desc x (mkQueryResult EmptyString s)
  = same_score s (score x).
Proof.
  unfold by_score_desc, same_score. simpl.
  destruct (Rle_dec (score x) s), (Rle_dec s (score x)),
    (Req_dec_T (score x) s); simpl; try done; lra.
Qed.

(** X17.  For a method other than AND and OR, results with the same score
    appear in the rows in the order in which they were added: the sort by
    descending score keeps the arrival order of ties. *)
Theorem ranking_ties (rs : list QueryResult) (method queryName runTag : string)
    (s : R) :
  ¬ (method = "AND" ∨ method = "OR") →
  row_document
    <$> List.filter (λ row, same_score s (row_score row))
          (fst (QueryResults.getFinalResults (QueryResults.mk rs method)
                  queryName runTag))
  = document <$> List.filter (λ x, same_score s (score x)) rs.
Proof.
  intros Hm. unfold QueryResults.getFinalResults. simpl.
  rewrite decide_False by done.
  rewrite (format_rows_filter (λ _ x, same_score s x)). f_equal.
  rewrite <- (filter_ext_bool _ _ _ (by_score_desc_both s)).
  rewrite <- (filter_ext_bool _ _ rs (by_score_desc_both s)).
  apply (sort_by_stable by_score_desc).
  intros x y z. rewrite !by_score_desc_true. lra.
Qed.

Lemma ranking_ties_witness :
  ¬ ("QL" = "AND" ∨ "QL" = "OR")
  ∧ row_document
      <$> List.filter (λ row, same_score 0 (row_score row))
            (fst (QueryResults.getFinalResults
                    (QueryResults.mk
                       [mkQueryResult "b" 0; mkQueryResult "c" 1;
                        mkQueryResult "a" 0] "QL")
                    "q" "tag"))
    = document
        <$> List.filter (λ x, same_score 0 (score x))
              [mkQueryResult "b" 0; mkQueryResult "c" 1; mkQueryResult "a" 0].
Proof.
  assert (¬ ("QL" = "AND" ∨ "QL" = "OR")) as H by (by intros [? | ?]).
  exact (conj H (ranking_ties _ "QL" "q" "tag" 0 H)).
Defined.

Lemma string_leb_ltb (a b : string) :
  String.leb a b = true → a ≠ b → String.ltb a b = true.
Proof.
  unfold String.leb, String.ltb. intros Hle Hne.
  destruct (String.compare a b) eqn:E; [| done | done].
  by apply String.compare_eq_iff in E.
Qed.

Lemma sorted_NoDup_strict (rs : list QueryResult) :
  StronglySorted (λ a b, String.leb (document a) (document b) = true) rs →
  NoDup (document <$> rs) →
  StronglySorted (λ a b, String.ltb (document a) (document b) = true) rs.
Proof.
  induction 1 as [| x l _ IH Hx]; [constructor |].
  rewrite fmap_cons. intros [Hnotin Hnd]%NoDup_cons.
  constructor; [by apply IH |].
  apply Forall_forall. intros y Hy. rewrite Forall_forall in Hx.
  apply string_leb_ltb; [by apply Hx |].
  intros E. apply Hnotin. rewrite E. by apply list_elem_of_fmap_2.
Qed.

Lemma format_rows_Forall (P : string → R → Prop) qn tag rank rs :
  Forall (λ x, P (document x) (score x)) rs →
  Forall (λ row, P (row_document row) (row_score row)
                 ∧ row_queryName row = qn ∧ row_tag row = tag)
    (QueryResults.format_rows qn tag rank rs).
Proof.
  intros H. revert rank. induction H as [| x l Hx _ IH]; intros rank; simpl;
    constructor; [done | apply IH].
Qed.

Lemma format_rows_documents qn tag rank rs :
  row_document <$> QueryResults.format_rows qn tag rank rs = document <$> rs.
Proof.
  revert rank. induction rs as [| x rs IH]; intros rank; simpl; [done |].
  by rewrite IH.
Qed.

(** The rows of a boolean result collection. *)
Lemma boolean_rows_of_scored (method : string) (X : gset string)
    (qn : string) :
  method = "AND" ∨ method = "OR" →
  let rows :=
    fst (QueryResults.getFinalResults
           (scored method (λ _, 1%R) (elements X)) qn default_runTag) in
  (∀ d, d ∈ row_document <$> rows ↔ d ∈ X)
  ∧ StronglySorted
      (λ a b, String.ltb (row_document a) (row_document b) = true) rows
  ∧ Forall (λ row, row_score row = 1%R ∧ row_queryName row = qn
                   ∧ row_tag row = (default_runTag ++ method)%string) rows
  ∧ row_rank <$> rows = (λ i, 1 + Z.of_nat i) <$> seq 0 (size X).
Proof.
  intros Hm rows. subst rows. unfold QueryResults.getFinalResults. simpl.
  rewrite decide_True by done.
  set (rs := (λ d, mkQueryResult d 1%R) <$> elements X).
  assert (document <$> rs = elements X) as Hdocs.
  { unfold rs. rewrite <- list_fmap_compose. apply list_fmap_id. }
  pose proof (sort_by_perm by_document rs) as Hperm.
  split; [| split; [| split]].
  - intros d. rewrite format_rows_documents, Hperm, Hdocs.
    apply elem_of_elements.
  - apply (format_rows_sorted (λ d1 _ d2 _, String.ltb d1 d2 = true)).
    apply sorted_NoDup_strict; [apply sort_by_document_sorted |].
    rewrite Hperm, Hdocs. apply NoDup_elements.
  - apply (format_rows_Forall (λ _ s, s = 1%R)).
    rewrite Hperm. unfold rs. apply Forall_fmap, Forall_forall. done.
  - rewrite format_rows_rank. do 2 f_equal.
    rewrite (Permutation_length Hperm). unfold rs.
    by rewrite length_fmap.
Qed.

(** X18.  The rows written for an OR query and for an AND query: one row per
    result document, with strictly ascending document IDs (no ties), score
    1, the name of the query, the tag [cgibbonsOR] or [cgibbonsAND], and the
    ranks 1, 2, ... *)
Theorem boolean_rows (index : Index.t) (q : list string) (qn : string) :
  let or_rows :=
    fst (QueryResults.getFinalResults (runORQuery index q) qn
           default_runTag) in
  let and_rows :=
    fst (QueryResults.getFinalResults (runANDQuery index q) qn
           default_runTag) in
  ((∀ d, d ∈ row_document <$> or_rows ↔ d ∈ spec_candidates index q)
   ∧ StronglySorted
       (λ a b, String.ltb (row_document a) (row_document b) = true) or_rows
   ∧ Forall (λ row, row_score row = 1%R ∧ row_queryName row = qn
                    ∧ row_tag row = "cgibbonsOR") or_rows
   ∧ row_rank <$> or_rows
     = (λ i, 1 + Z.of_nat i) <$> seq 0 (size (spec_candidates index q)))
  ∧ ((∀ d, d ∈ row_document <$> and_rows
           ↔ d ∈ intersect_documents index q)
     ∧ StronglySorted
         (λ a b, String.ltb (row_document a) (row_document b) = true) and_rows
     ∧ Forall (λ row, row_score row = 1%R ∧ row_queryName row = qn
                      ∧ row_tag row = "cgibbonsAND") and_rows
     ∧ row_rank <$> and_rows
       = (λ i, 1 + Z.of_nat i)
           <$> seq 0 (size (intersect_documents index q))).
Proof.
  intros or_rows and_rows. subst or_rows and_rows.
  rewrite runORQuery_eq, runANDQuery_eq. split.
  - apply (boolean_rows_of_scored "OR"). by right.
  - apply (boolean_rows_of_scored "AND"). by left.
Qed.

(** ** The boolean models and the order of the set *)

Lemma intersect_documents_same_terms index q q' :
  (∀ t, t ∈ q ↔ t ∈ q') →
  intersect_documents index q = intersect_documents index q'.
Proof.
  intros H. destruct q as [| w q].
  - destruct q' as [| w' q']; [done |].
    exfalso. apply (not_elem_of_nil w'). apply H. left.
  - destruct q' as [| w' q'].
    { exfalso. apply (not_elem_of_nil w). apply H. left. }
    apply set_eq. intros d. rewrite !elem_of_intersect_documents by done.
    unfold spec_AND_member. split; intros Hd t Ht; apply Hd; by apply H.
Qed.

Lemma string_ltb_asym (a b : string) :
  String.ltb a b = true → String.ltb b a = true → False.
Proof.
  unfold String.ltb. rewrite (String.compare_antisym a b).
  by destruct (String.compare b a).
Qed.

(** Two lists with strictly ascending document IDs that are permutations of
    each other are equal. *)
Lemma strictly_sorted_perm_eq (l l' : list QueryResult) :
  StronglySorted (λ a b, String.ltb (document a) (document b) = true) l →
  StronglySorted (λ a b, String.ltb (document a) (document b) = true) l' →
  l ≡ₚ l' → l = l'.
Proof.
  intros Hl. revert l'. induction Hl as [| x l Hl IH Hx]; intros l' Hl' Hp.
  - by apply Permutation_nil in Hp.
  - destruct Hl' as [| y l' Hl' Hy].
    { symmetry in Hp. by apply Permutation_nil in Hp. }
    assert (x = y) as ->.
    { assert (x ∈ y :: l') as Hxin by (rewrite <- Hp; left).
      assert (y ∈ x :: l) as Hyin by (rewrite Hp; left).
      apply elem_of_cons in Hxin as [E | Hxin]; [done |].
      apply elem_of_cons in Hyin as [E | Hyin]; [done |].
      rewrite Forall_forall in Hx, Hy.
      destruct (string_ltb_asym (document x) (document y)); auto. }
    f_equal. apply IH; [done |]. by apply Permutation_cons_inv in Hp.
Qed.

(** Sorting by document does not depend on the order in which results with
    pairwise distinct documents were added. *)
Lemma sort_by_document_perm (rs rs' : list QueryResult) :
  rs ≡ₚ rs' → NoDup (document <$> rs) →
  sort_by by_document rs = sort_by by_document rs'.
Proof.
  intros Hp Hnd.
  apply strictly_sorted_perm_eq.
  - apply sorted_NoDup_strict; [apply sort_by_document_sorted |].
    by rewrite (sort_by_perm by_document rs).
  - apply sorted_NoDup_strict; [apply sort_by_document_sorted |].
    by rewrite (sort_by_perm by_document rs'), <- Hp.
  - by rewrite !sort_by_perm.
Qed.

Lemma boolean_rows_perm (method : string) (X : gset string)
    (rs : list QueryResult) (qn tag : string) :
  method = "AND" ∨ method = "OR" →
  rs ≡ₚ QueryResults.results (scored method (λ _, 1%R) (elements X)) →
  fst (QueryResults.getFinalResults (QueryResults.mk rs method) qn tag)
  = fst (QueryResults.getFinalResults
           (scored method (λ _, 1%R) (elements X)) qn tag).
Proof.
  intros Hm Hp. unfold QueryResults.getFinalResults. simpl.
  rewrite !decide_True by done. f_equal.
  apply sort_by_document_perm; [done |].
  rewrite Hp. unfold scored. simpl. rewrite <- list_fmap_compose.
  rewrite list_fmap_id. apply NoDup_elements.
Qed.

(** X12.  [runANDQuery] and [runORQuery] depend only on the set of the query
    terms, up to the order of the results: for term lists with the same
    terms, in any order and with any repetition, the result collections are
    permutations of each other, and [getFinalResults] returns the same rows
    for both, in whatever order the documents of the set were added. *)
Theorem boolean_models_term_set (index : Index.t) (q q' : list string)
    (queryName runTag : string) :
  (∀ t, t ∈ q ↔ t ∈ q') →
  QueryResults.results (runANDQuery index q)
    ≡ₚ QueryResults.results (runANDQuery index q')
  ∧ QueryResults.results (runORQuery index q)
      ≡ₚ QueryResults.results (runORQuery index q')
  ∧ (∀ rs, rs ≡ₚ QueryResults.results (runANDQuery index q') →
       fst (QueryResults.getFinalResults (QueryResults.mk rs "AND")
              queryName runTag)
       = fst (QueryResults.getFinalResults (runANDQuery index q)
                queryName runTag))
  ∧ (∀ rs, rs ≡ₚ QueryResults.results (runORQuery index q') →
       fst (QueryResults.getFinalResults (QueryResults.mk rs "OR")
              queryName runTag)
       = fst (QueryResults.getFinalResults (runORQuery index q)
                queryName runTag)).
Proof.
  intros H. rewrite !runANDQuery_eq, !runORQuery_eq.
  rewrite (intersect_documents_same_terms index q' q),
    (spec_candidates_same_terms index q' q) by (intros t; by rewrite H).
  split; [done |]. split; [done |]. split.
  - intros rs Hp. apply boolean_rows_perm; [by left | done].
  - intros rs Hp. apply boolean_rows_perm; [by right | done].
Qed.

Lemma boolean_models_term_set_witness :
  (∀ t, t ∈ ["cat"; "dog"] ↔ t ∈ ["dog"; "cat"; "dog"])
  ∧ QueryResults.results (runORQuery example_index ["cat"; "dog"])
      ≡ₚ QueryResults.results (runORQuery example_index ["dog"; "cat"; "dog"])
  ∧ fst (QueryResults.getFinalResults
           (QueryResults.mk [mkQueryResult "d2" 1; mkQueryResult "d1" 1] "OR")
           "q1" default_runTag)
    = fst (QueryResults.getFinalResults
             (runORQuery example_index ["cat"; "dog"]) "q1" default_runTag).
Proof.
  assert (∀ t, t ∈ ["cat"; "dog"] ↔ t ∈ ["dog"; "cat"; "dog"]) as H.
  { intros t. rewrite !elem_of_cons. split; tauto. }
  pose proof (boolean_models_term_set example_index ["cat"; "dog"]
                ["dog"; "cat"; "dog"] "q1" default_runTag H)
    as (_ & H2 & _ & H4).
  refine (conj H (conj H2 (H4 _ _))).
  replace (QueryResults.results
             (runORQuery example_index ["dog"; "cat"; "dog"]))
    with [mkQueryResult "d1" 1; mkQueryResult "d2" 1] by (by vm_compute).
  apply Permutation_swap.
Defined.

(** ** The query file *)

Lemma append_empty_r (s : string) : (s ++ EmptyString)%string = s.
Proof.
  induction s as [| c s IH]; [done |].
  change (String c (s ++ EmptyString)%string = String c s). by rewrite IH.
Qed.

Lemma append_snoc (s1 s2 : string) (c : ascii) :
  ((s1 ++ String c EmptyString) ++ s2)%string = (s1 ++ String c s2)%string.
Proof.
  induction s1 as [| c' s1 IH]; [done |].
  change (String c' ((s1 ++ String c EmptyString) ++ s2)%string
          = String c' (s1 ++ String c s2)%string).
  by rewrite IH.
Qed.

Lemma split_on_from_no_sep sep cur s :
  contains sep s = false → split_on_from sep cur s = [(cur ++ s)%string].
Proof.
  revert cur. induction s as [| c s IH]; intros cur; simpl.
  - intros _. by rewrite append_empty_r.
  - destruct (decide (c = sep)); [done |]. intros H. rewrite IH by done.
    by rewrite append_snoc.
Qed.

Lemma split_on_from_cons sep cur s :
  ∃ a rest, split_on_from sep cur s = a :: rest.
Proof.
  revert cur. induction s as [| c s IH]; intros cur; simpl.
  - by eexists _, _.
  - destruct (decide (c = sep)); [by eexists _, _ | apply IH].
Qed.

Lemma split_on_from_sep sep cur s :
  contains sep s = true →
  ∃ a b rest, split_on_from sep cur s = a :: b :: rest.
Proof.
  revert cur. induction s as [| c s IH]; intros cur; simpl; [done |].
  destruct (decide (c = sep)); [| apply IH].
  intros _. destruct (split_on_from_cons sep EmptyString s) as (b & rest & ->).
  by eexists _, _, _.
Qed.

Lemma Query_init_line line :
  Query_init (split_on tab line)
  = if contains tab line
    then Query_init (split_on tab line)
    else Raise IndexError.
Proof.
  destruct (contains tab line) eqn:E; [done |].
  unfold split_on. by rewrite split_on_from_no_sep.
Qed.

Lemma Query_init_ok line :
  contains tab line = true → ∃ query, Query_init (split_on tab line) = Ok query.
Proof.
  intros H. unfold split_on.
  destruct (split_on_from_sep tab EmptyString line H) as (a & b & rest & ->).
  by eexists.
Qed.

Lemma parse_queries_outcome lines :
  (Forall (λ line, contains tab line = true) lines
   ∧ ∃ queries, parse_queries lines = Ok queries
                ∧ length queries = length lines)
  ∨ (Exists (λ line, contains tab line = false) lines
     ∧ parse_queries lines = Raise IndexError).
Proof.
  induction lines as [| line lines IH]; simpl.
  - left. split; [constructor | by exists []].
  - destruct (contains tab line) eqn:E.
    + destruct (Query_init_ok line E) as (query & ->). simpl.
      destruct IH as [(Hall & queries & -> & Hlen) | (Hex & ->)]; simpl.
      * left. split; [by constructor |]. exists (query :: queries).
        split; [done | simpl; by rewrite Hlen].
      * right. split; [by right | done].
    + right. split; [by left |].
      rewrite Query_init_line, E. done.
Qed.

(** X19.  A line of the query file without a tab (a blank line, for one)
    makes [runQueries] raise [IndexError] before anything is written and
    before any query runs; when every line has a tab, every line becomes a
    query. *)
Theorem query_file_lines (lines : list string) (index : Index.t) :
  (Exists (λ line, contains tab line = false) lines →
   runQueries lines index = (mkOutcome [] (Some IndexError), index))
  ∧ (Forall (λ line, contains tab line = true) lines →
     ∃ queries, parse_queries lines = Ok queries
                ∧ length queries = length lines).
Proof.
  destruct (parse_queries_outcome lines)
    as [(Hall & queries & E & Hlen) | (Hex & E)]; split.
  - intros Hex. exfalso. apply Exists_exists in Hex as (line & Hin & Hno).
    rewrite Forall_forall in Hall. specialize (Hall line Hin). congruence.
  - intros _. by exists queries.
  - intros _. unfold runQueries. by rewrite E.
  - intros Hall. exfalso. apply Exists_exists in Hex as (line & Hin & Hno).
    rewrite Forall_forall in Hall. specialize (Hall line Hin). congruence.
Qed.

Lemma query_file_lines_witness :
  Exists (λ line, contains tab line = false)
    [query_line ["OR"; "q1"; "cat"]; String newline EmptyString]
  ∧ runQueries [query_line ["OR"; "q1"; "cat"]; String newline EmptyString]
      one_cat_index
    = (mkOutcome [] (Some IndexError), one_cat_index)
  ∧ Forall (λ line, contains tab line = true) example_query_lines
  ∧ ∃ queries, parse_queries example_query_lines = Ok queries
               ∧ length queries = length example_query_lines.
Proof.
  assert (Exists (λ line, contains tab line = false)
            [query_line ["OR"; "q1"; "cat"]; String newline EmptyString])
    as H1 by (right; left; by vm_compute).
  assert (Forall (λ line, contains tab line = true) example_query_lines)
    as H2 by (repeat constructor).
  exact (conj H1
           (conj (proj1 (query_file_lines _ one_cat_index) H1)
              (conj H2 (proj2 (query_file_lines _ one_cat_index) H2)))).
Defined.

Lemma dispatch_pure_recognised index acc query res :
  recognised (type query) →
  dispatch_pure index acc query = Ok res →
  ∃ r, res = (acc ++ [r])%list ∧ dispatch_pure index [] query = Ok [r].
Proof.
  unfold recognised, dispatch_pure. intros Hr.
  destruct (decide (upper (type query) = "AND")).
  { intros [= <-]. by eexists. }
  destruct (decide (upper (type query) = "OR")).
  { intros [= <-]. by eexists. }
  destruct (decide (upper (type query) = "QL")).
  { destruct (fst (runQLQuery _ index)) as [r | err]; [| done].
    intros [= <-]. by exists r. }
  destruct (decide (upper (type query) = "BM25")).
  { destruct (fst (runBM25Query _ index)) as [r | err]; [| done].
    intros [= <-]. by exists r. }
  tauto.
Qed.

Lemma foldR_dispatch_recognised index queries acc results :
  Forall (λ query, recognised (type query)) queries →
  foldR (dispatch_pure index) acc queries = Ok results →
  ∃ rs, results = (acc ++ rs)%list
        ∧ Forall2 (λ query r, dispatch_pure index [] query = Ok [r])
            queries rs.
Proof.
  intros Hall. revert acc.
  induction Hall as [| query queries Hq _ IH]; intros acc; simpl.
  - intros [= <-]. exists []. by rewrite app_nil_r.
  - destruct (dispatch_pure index acc query) as [res |] eqn:E; [| done].
    simpl. intros H.
    destruct (dispatch_pure_recognised _ _ _ _ Hq E) as (r & -> & Hr).
    destruct (IH _ H) as (rs & -> & Hrs).
    exists (r :: rs). split; [by rewrite <- app_assoc | by constructor].
Qed.

Lemma write_results_all pre rs pending out :
  length pending = length rs →
  write_results (pre ++ rs) (length pre) pending out
  = mkOutcome (out ++ concat (zip_with query_rows pending rs)) None.
Proof.
  revert pre rs out.
  induction pending as [| query pending IH]; intros pre rs out Hlen.
  - destruct rs; [| done]. simpl. by rewrite app_nil_r.
  - destruct rs as [| r rs]; [done |]. cbn [write_results].
    rewrite list_lookup_middle by done.
    replace (pre ++ r :: rs)%list with ((pre ++ [r]) ++ rs)%list
      by (by rewrite <- app_assoc).
    replace (S (length pre)) with (length (pre ++ [r]))
      by (rewrite length_app; simpl; lia).
    rewrite IH by (simpl in Hlen; lia).
    simpl. unfold query_rows at 2. by rewrite <- app_assoc.
Qed.

(** X20.  When every tag of the query file is one of AND, OR, QL, BM25 (in
    any case) and no query raises, there is one result collection per query,
    in the order of the file, and the output is the rows of the queries one
    after the other, each under the name of its own query; the run ends
    normally. *)
Theorem recognised_queries_written (lines : list string) (index : Index.t)
    (queries : list Query) (results : list QueryResults.t) :
  parse_queries lines = Ok queries →
  Forall (λ query, recognised (type query)) queries →
  foldR (dispatch_pure index) [] queries = Ok results →
  Forall2 (λ query r, dispatch_pure index [] query = Ok [r]) queries results
  ∧ fst (runQueries lines index)
    = mkOutcome (concat (zip_with query_rows queries results)) None.
Proof.
  intros Hp Hall Hr.
  destruct (foldR_dispatch_recognised _ _ _ _ Hall Hr) as (rs & -> & Hrs).
  simpl. split; [done |].
  rewrite runQueries_fst, Hp, Hr. simpl.
  apply (write_results_all [] rs queries []).
  by apply Forall2_length in Hrs.
Qed.

Lemma recognised_queries_written_witness :
  parse_queries [query_line ["AND"; "q1"; "cat"; "dog"];
                 query_line ["or"; "q2"; "cat"]]
  = Ok [mkQuery "AND" "q1" ["cat"; "dog"]; mkQuery "or" "q2" ["cat"]]
  ∧ Forall (λ query, recognised (type query))
      [mkQuery "AND" "q1" ["cat"; "dog"]; mkQuery "or" "q2" ["cat"]]
  ∧ foldR (dispatch_pure example_index) []
      [mkQuery "AND" "q1" ["cat"; "dog"]; mkQuery "or" "q2" ["cat"]]
    = Ok [runANDQuery example_index ["cat"; "dog"];
          runORQuery example_index ["cat"]]
  ∧ Forall2 (λ query r, dispatch_pure example_index [] query = Ok [r])
      [mkQuery "AND" "q1" ["cat"; "dog"]; mkQuery "or" "q2" ["cat"]]
      [runANDQuery example_index ["cat"; "dog"];
       runORQuery example_index ["cat"]]
  ∧ fst (runQueries [query_line ["AND"; "q1"; "cat"; "dog"];
                     query_line ["or"; "q2"; "cat"]] example_index)
    = mkOutcome
        (concat (zip_with query_rows
                   [mkQuery "AND" "q1" ["cat"; "dog"];
                    mkQuery "or" "q2" ["cat"]]
                   [runANDQuery example_index ["cat"; "dog"];
                    runORQuery example_index ["cat"]])) None.
Proof.
  assert (parse_queries [query_line ["AND"; "q1"; "cat"; "dog"];
                         query_line ["or"; "q2"; "cat"]]
          = Ok [mkQuery "AND" "q1" ["cat"; "dog"];
                mkQuery "or" "q2" ["cat"]]) as H1 by (by vm_compute).
  assert (Forall (λ query, recognised (type query))
            [mkQuery "AND" "q1" ["cat"; "dog"]; mkQuery "or" "q2" ["cat"]])
    as H2.
  { constructor; [by left |]. constructor; [| constructor].
    right. left. by vm_compute. }
  assert (foldR (dispatch_pure example_index) []
            [mkQuery "AND" "q1" ["cat"; "dog"]; mkQuery "or" "q2" ["cat"]]
          = Ok [runANDQuery example_index ["cat"; "dog"];
                runORQuery example_index ["cat"]]) as H3 by (by vm_compute).
  exact (conj H1 (conj H2 (conj H3
           (recognised_queries_written _ example_index _ _ H1 H2 H3)))).
Defined.

(** X21.  A query file whose queries all run and of which one has a tag
    other than AND, OR, QL, BM25 always ends in [IndexError]: there are fewer
    result collections than queries when the output is written. *)
Theorem unrecognised_tag_always_raises (lines : list string)
    (index index' : Index.t) (queries : list Query)
    (results : list QueryResults.t) :
  parse_queries lines = Ok queries →
  foldM dispatch [] queries index = (Ok results, index') →
  Exists (λ query, ¬ recognised (type query)) queries →
  raised (fst (runQueries lines index)) = Some IndexError
  ∧ (length results < length queries)%nat.
Proof.
  intros Hp Hd Hex. split.
  - by apply (unrecognised_tag_raises lines index queries results index').
  - destruct (foldM_dispatch_length _ _ _ _ _ Hd) as [_ Hlt].
    specialize (Hlt Hex). simpl in Hlt. lia.
Qed.

Lemma unrecognised_tag_always_raises_witness :
  parse_queries example_query_lines
  = Ok [mkQuery "FOO" "q1" ["cat"]; mkQuery "OR" "q2" ["cat"]]
  ∧ foldM dispatch [] [mkQuery "FOO" "q1" ["cat"]; mkQuery "OR" "q2" ["cat"]]
      one_cat_index
    = (Ok [runORQuery one_cat_index ["cat"]], one_cat_index)
  ∧ Exists (λ query, ¬ recognised (type query))
      [mkQuery "FOO" "q1" ["cat"]; mkQuery "OR" "q2" ["cat"]]
  ∧ raised (fst (runQueries example_query_lines one_cat_index))
    = Some IndexError
  ∧ (length [runORQuery one_cat_index ["cat"]]
     < length [mkQuery "FOO" "q1" ["cat"]; mkQuery "OR" "q2" ["cat"]])%nat.
Proof.
  assert (parse_queries example_query_lines
          = Ok [mkQuery "FOO" "q1" ["cat"]; mkQuery "OR" "q2" ["cat"]])
    as H1 by (by vm_compute).
  assert (foldM dispatch []
            [mkQuery "FOO" "q1" ["cat"]; mkQuery "OR" "q2" ["cat"]]
            one_cat_index
          = (Ok [runORQuery one_cat_index ["cat"]], one_cat_index))
    as H2 by (by vm_compute).
  assert (Exists (λ query, ¬ recognised (type query))
            [mkQuery "FOO" "q1" ["cat"]; mkQuery "OR" "q2" ["cat"]]) as H3.
  { left. unfold recognised. simpl. by intros [? | [? | [? | ?]]]. }
  exact (conj H1 (conj H2 (conj H3
           (unrecognised_tag_always_raises _ _ _ _ _ H1 H2 H3)))).
Defined.

(** ** BM25 and terms that are not in the corpus *)

Lemma absent_token_ids corpus t :
  t ∉ corpus_tokens corpus →
  Index.getDocumentIDsForToken (buildIndex corpus) t = ∅.
Proof.
  intros Hn. unfold Index.getDocumentIDsForToken.
  destruct (Index.index (buildIndex corpus) !! t) as [p |] eqn:E; [| done].
  exfalso. apply Hn. apply (elem_of_list_to_set (C := gset string)).
  rewrite <- dom_index_buildIndex. apply elem_of_dom. by eexists.
Qed.

Lemma absent_token_tf corpus t d :
  t ∉ corpus_tokens corpus →
  Index.getTokenFrequencyInDocument (buildIndex corpus) t d = 0.
Proof.
  intros Hn. apply (collection_frequency_eq corpus t) in Hn.
  pose proof (getTokenFrequencyInDocument_le (buildIndex corpus) t d).
  pose proof (getTokenFrequencyInDocument_nonneg (buildIndex corpus) t d).
  lia.
Qed.

(** X22.  [runBM25Query] ignores a query term that occurs in no document:
    with the term in front of the query it returns what it returns without
    it (the term adds no candidate, and its factor [term2] is 0 for every
    document). *)
Theorem BM25_absent_term (corpus : list Document) (q : list string)
    (t : string) :
  t ∉ corpus_tokens corpus →
  fst (runBM25Query (t :: q) (buildIndex corpus))
  = fst (runBM25Query q (buildIndex corpus)).
Proof.
  intros Hn. rewrite !runBM25Query_ok by apply built_buildIndex.
  assert (spec_candidates (buildIndex corpus) (t :: q)
          = spec_candidates (buildIndex corpus) q) as ->.
  { unfold spec_candidates. rewrite fmap_cons. simpl.
    rewrite absent_token_ids by done. by rewrite (left_id_L ∅ (∪)). }
  apply f_equal, scored_ext. intros d. unfold spec_BM25_score_guarded.
  rewrite fmap_cons, Rsum_cons, spec_BM25_term_guarded_eq.
  unfold spec_BM25_term, spec_term2. rewrite absent_token_tf by done.
  unfold Rdiv. lra.
Qed.

Lemma BM25_absent_term_witness :
  ("emu" ∉ corpus_tokens example_corpus)
  ∧ fst (runBM25Query ["emu"; "dog"] (buildIndex example_corpus))
    = fst (runBM25Query ["dog"] (buildIndex example_corpus)).
Proof.
  assert ("emu" ∉ corpus_tokens example_corpus) as H.
  { apply (bool_decide_unpack _). by vm_compute. }
  exact (conj H (BM25_absent_term example_corpus ["dog"] "emu" H)).
Defined.

(** ** One more document *)

Lemma length_default_appended o l :
  length (default [] (appended o l)) = (length (default [] o) + length l)%nat.
Proof.
  destruct l as [| x l]; simpl; [lia |]. by rewrite length_app.
Qed.

(** X23.  What [add] changes, on any index: the added document becomes the
    stored document of its ID, the frequency of every token under that ID
    grows by the number of its occurrences in the document, the number of
    documents grows by one, and the stored document and the position lists
    of every other ID stay as they are. *)
Theorem add_one_document (index : Index.t) (doc : Document) (t sid : string) :
  Index.getDocumentLength (Index.add doc index) (storyID doc)
  = Z.of_nat (length (split (text doc)))
  ∧ Index.getTokenFrequencyInDocument (Index.add doc index) t (storyID doc)
    = Index.getTokenFrequencyInDocument index t (storyID doc)
      + occurrences t (split (text doc))
  ∧ Index.getNumberOfDocuments (Index.add doc index)
    = Index.getNumberOfDocuments index + 1
  ∧ (sid ≠ storyID doc →
     Index.getDocumentLength (Index.add doc index) sid
     = Index.getDocumentLength index sid
     ∧ Index.getPostings (Index.add doc index) t !! sid
       = Index.getPostings index t !! sid).
Proof.
  split; [| split; [| split]].
  - unfold Index.getDocumentLength. simpl. by rewrite lookup_insert_eq.
  - rewrite !tf_positions_at, positions_at_add, decide_True by done.
    rewrite length_default_appended, Nat2Z.inj_add, length_positions_of.
    done.
  - done.
  - intros Hne. split.
    + unfold Index.getDocumentLength. simpl.
      by rewrite lookup_insert_ne.
    + rewrite !getPostings_positions_at, positions_at_add.
      by rewrite decide_False.
Qed.

Lemma add_one_document_witness :
  "d2" ≠ storyID (mkDocument "d3" "cat emu")
  ∧ Index.getDocumentLength
      (Index.add (mkDocument "d3" "cat emu") example_index) "d2"
    = Index.getDocumentLength example_index "d2"
  ∧ Index.getPostings
      (Index.add (mkDocument "d3" "cat emu") example_index) "dog" !! "d2"
    = Index.getPostings example_index "dog" !! "d2".
Proof.
  assert ("d2" ≠ storyID (mkDocument "d3" "cat emu")) as H by done.
  exact (conj H (proj2 (proj2 (proj2
           (add_one_document example_index (mkDocument "d3" "cat emu")
              "dog" "d2"))) H)).
Defined.

(** ** Document frequency *)

Lemma getDocumentIDsForToken_build_set corpus t :
  Index.getDocumentIDsForToken (buildIndex corpus) t
  = list_to_set
      (storyID <$> filter (λ d, t ∈ split (text d)) corpus).
Proof.
  apply set_eq. intros sid. rewrite elem_of_getDocumentIDsForToken_build.
  rewrite elem_of_list_to_set, list_elem_of_fmap. split.
  - intros (d & Hd & <- & Ht). exists d. split; [done |].
    by apply list_elem_of_filter.
  - intros (d & -> & Hd). apply list_elem_of_filter in Hd as [Ht Hd].
    by exists d.
Qed.

Lemma getTokenDocumentCount_size index t :
  Index.getTokenDocumentCount index t
  = Z.of_nat (size (Index.getDocumentIDsForToken index t)).
Proof.
  unfold Index.getTokenDocumentCount, Index.getDocumentIDsForToken.
  destruct (_ !! t); [by rewrite size_dom | by rewrite size_empty].
Qed.

(** X24.  With pairwise distinct IDs, [getTokenDocumentCount] is the number
    of documents of the corpus whose split text contains the token. *)
Theorem document_frequency (corpus : list Document) (t : string) :
  NoDup (storyID <$> corpus) →
  Index.getTokenDocumentCount (buildIndex corpus) t
  = Z.of_nat (length (filter (λ d, t ∈ split (text d)) corpus)).
Proof.
  intros Hnd. rewrite getTokenDocumentCount_size.
  rewrite getDocumentIDsForToken_build_set. f_equal.
  rewrite size_list_to_set.
  - apply length_fmap.
  - apply (sublist_NoDup _ (storyID <$> corpus)); [exact Hnd |].
    apply fmap_sublist, sublist_filter.
Qed.

Lemma document_frequency_witness :
  NoDup (storyID <$> example_corpus)
  ∧ Index.getTokenDocumentCount (buildIndex example_corpus) "cat"
    = Z.of_nat (length (filter (λ d, "cat" ∈ split (text d)) example_corpus)).
Proof.
  assert (NoDup (storyID <$> example_corpus)) as H.
  { apply NoDup_cons. split; [| apply NoDup_singleton].
    intros Hin. by apply list_elem_of_singleton in Hin. }
  exact (conj H (document_frequency example_corpus "cat" H)).
Defined.
